(** * anemoi.training.diagnostics.mlflow.logger

    A shallow embedding of [src/anemoi/training/diagnostics/mlflow/logger.py]:
    the terminal-output monitor [LogsMonitor] (stream patching, the buffer
    registry, the flush routine and its control-sequence filter, the
    collector loop), [health_check], [get_mlflow_run_params], and the
    constructor and the hyper-parameter path of [AnemoiMLflowLogger].

    Python [bytes] are [list byte]; Python [str] is a Rocq [string] holding
    the UTF-8 encoding of the text, so that [str.encode()] is the identity on
    the underlying bytes and [bytes.decode()] is a validity check. *)

From Stdlib Require Import List ZArith QArith Lia Lqa Bool.
From Stdlib Require Import Strings.String Strings.Ascii Strings.Byte.
From Equations Require Import Equations.
From stdpp Require Import base gmap sets list strings.
Import ListNotations.

Set Default Proof Using "Type".

(** ** Exceptions raised by the modelled code *)

Inductive exn : Type :=
| KeyError
| ValueError
| TypeError
| RecursionError
| UnicodeDecodeError
| ConnectionError (msg : string).

(** [inl e] is a raised exception, [inr a] a normal return. *)
Definition result (A : Type) : Type := (exn + A)%type.

(** ** Byte strings *)

Definition bytes (s : string) : list byte := list_byte_of_string s.

Definition SOH : byte := x01.
Definition STX : byte := x02.
Definition LF  : byte := x0a.
Definition CR  : byte := x0d.
Definition ESC : byte := x1b.

(** [needle in hay] for [bytes] operands. *)
Fixpoint startswith (p l : list byte) : bool :=
  match p, l with
  | [], _ => true
  | _ :: _, [] => false
  | a :: p', b :: l' => Byte.eqb a b && startswith p' l'
  end.

Fixpoint bytes_in (needle hay : list byte) : bool :=
  match hay with
  | [] => startswith needle []
  | _ :: t => startswith needle hay || bytes_in needle t
  end.

(** [bytes.split(sep)] for a one-byte separator; [rsplit] without a
    [maxsplit] returns the same list.  The result is never empty. *)
Fixpoint split_on (sep : byte) (l : list byte) : list (list byte) :=
  match l with
  | [] => [[]]
  | c :: t =>
      if Byte.eqb c sep then [] :: split_on sep t
      else match split_on sep t with
           | h :: r => (c :: h) :: r
           | [] => [[c]]
           end
  end.

(** ** The pattern [ansi_csi_re]

    Line 239 compiles the bytes pattern
      SOH? ESC [ ( (digit | ;)* ) ( [a-dA-D] ) STX?
    with two groups: the parameter bytes and the final letter. *)

(** The class of decimal digits; in a bytes pattern it is 0-9 only. *)
Definition is_digit (c : byte) : bool :=
  match c with
  | x30 | x31 | x32 | x33 | x34 | x35 | x36 | x37 | x38 | x39 => true
  | _ => false
  end.

(** One parameter byte: a digit or a semicolon. *)
Definition is_param (c : byte) : bool := is_digit c || Byte.eqb c ";".

(** The final letter: a-d or A-D. *)
Definition is_command (c : byte) : bool :=
  match c with
  | x41 | x42 | x43 | x44 | x61 | x62 | x63 | x64 => true
  | _ => false
  end.

(** The greedy star over parameter bytes: the longest run of parameter bytes and what
    follows it. *)
Fixpoint span_params (l : list byte) : list byte * list byte :=
  match l with
  | c :: t =>
      if is_param c then let (p, r) := span_params t in (c :: p, r)
      else ([], l)
  | [] => ([], [])
  end.

(** An optional single byte at the head (greedy). *)
Definition strip_opt (b : byte) (l : list byte) : list byte :=
  match l with
  | c :: t => if Byte.eqb c b then t else l
  | [] => []
  end.

(** [match.groups()]: the parameter bytes and the final letter. *)
Record csi_match : Type := { arg : list byte; command : byte }.

(** The pattern from ESC on, anchored at the head of [l]; returns the groups
    and the input left after the match. *)
Definition match_body (l : list byte) : option (csi_match * list byte) :=
  match l with
  | e :: o :: t =>
      if Byte.eqb e ESC && Byte.eqb o "[" then
        let (p, r) := span_params t in
        match r with
        | c :: t2 =>
            if is_command c
            then Some ({| arg := p; command := c |}, strip_opt STX t2)
            else None
        | [] => None
        end
      else None
  | _ => None
  end.

(** The whole pattern anchored at the head of [l].  The matcher backtracks,
    but every choice it could revise is forced: giving up a consumed SOH
    leaves SOH where ESC is required, a shorter parameter run is followed by
    a parameter byte where a letter is required, and what follows the
    optional STX is the end of the pattern. *)
Definition match_csi (l : list byte) : option (csi_match * list byte) :=
  match_body (strip_opt SOH l).

Definition inspect {A : Type} (a : A) : { b : A | a = b } := exist _ a eq_refl.

(** The scan resumes strictly further on after a match: what a match leaves
    is shorter than what it was given. *)
Ltac match_leaves_less e :=
  let Hs := fresh "Hs" in
  assert (Hs : forall l : list byte,
             (length (snd (span_params l)) <= length l)%nat)
    by (let l := fresh "l" in
        let IH := fresh "IH" in
        induction l as [|? ? IH]; simpl; [lia|];
        destruct (is_param _); simpl; [|lia];
        destruct (span_params _); simpl in *; lia);
  unfold match_csi, match_body, strip_opt in e;
  repeat match type of e with
         | context [match ?x with _ => _ end] =>
             let E := fresh "E" in
             destruct x eqn:E; try discriminate e;
             try (match type of E with
                  | span_params ?t = _ => specialize (Hs t); rewrite E in Hs
                  end)
         end;
  inversion e; subst;
  repeat match goal with
         | H : (if ?x then _ else _) = _ |- _ =>
             destruct x; inversion H; subst
         end;
  simpl in *; lia.

(** [ansi_csi_re.finditer(line)]: the groups of the leftmost non-overlapping
    matches, scanning left to right; after a match the scan resumes at its
    end, otherwise one byte further. *)
Equations? finditer (l : list byte) : list csi_match by wf (length l) lt :=
  finditer [] := [];
  finditer (c :: t) with inspect (match_csi (c :: t)) := {
    | exist _ (Some (m, rest)) _ := m :: finditer rest;
    | exist _ None _ := finditer t }.
Proof.
  - clear finditer. match_leaves_less e.
  - simpl. lia.
Qed.

(** [re.sub(ansi_csi_re, b'', line)] (the local [_remove_csi]): the same scan,
    keeping the bytes outside the matches. *)
Equations? remove_csi (l : list byte) : list byte by wf (length l) lt :=
  remove_csi [] := [];
  remove_csi (c :: t) with inspect (match_csi (c :: t)) := {
    | exist _ (Some (m, rest)) _ := remove_csi rest;
    | exist _ None _ := c :: remove_csi t }.
Proof.
  - clear remove_csi. match_leaves_less e.
  - simpl. lia.
Qed.


(** ** [_handle_csi] and the per-line filter (lines 241-266) *)

Definition digit_value (c : byte) : Z := Z.of_N (Byte.to_N c) - 48.

(** [int(s.decode())] for [s] drawn from digits and semicolons.  A semicolon
    or an empty text is no literal.  [max_str_digits] is the interpreter's
    [sys.get_int_max_str_digits()]: when it is positive, a text of more than
    that many digits (and of more than 640, below which the limit is never
    consulted) is refused; 0 switches the limit off, as do interpreters that
    predate it. *)
Definition py_int (max_str_digits : nat) (s : list byte) : option Z :=
  if forallb is_digit s
     && negb (length s =? 0)%nat
     && negb ((640 <? length s)%nat && (0 <? max_str_digits)%nat
              && (max_str_digits <? length s)%nat)
  then Some (fold_left (fun acc c => 10 * acc + digit_value c) s 0)%Z
  else None.

(** Line 250: [arg = int(arg.decode()) if arg else 1]. *)
Definition arg_value (max_str_digits : nat) (a : list byte) : option Z :=
  match a with
  | [] => Some 1%Z
  | _ :: _ => py_int max_str_digits a
  end.

(** Line 251, first conjunct: [command == b'A']. *)
Definition is_cursor_up (m : csi_match) : bool := Byte.eqb (command m) "A".

(** Lines 251-252, the test guarding [line = b''], on the current value of
    the variable [line]. *)
Definition cursor_up_test (shutdown : bool) (line : list byte) (m : csi_match) : bool :=
  is_cursor_up m
  && (negb (bytes_in (bytes "0%") line) && negb shutdown
      && negb (bytes_in (bytes "[INFO]") line)
      && negb (bytes_in (bytes "[DEBUG]") line)).

(** The [for match in ansi_csi_re.finditer(line)] loop.  The iterator was
    built from the line as passed in; the body reads and assigns the
    variable [line]. *)
Fixpoint handle_csi_loop (max_str_digits : nat) (shutdown : bool)
    (matches : list csi_match) (line : list byte) : result (list byte) :=
  match matches with
  | [] => inr line
  | m :: ms =>
      match arg_value max_str_digits (arg m) with
      | None => inl ValueError
      | Some _ =>
          handle_csi_loop max_str_digits shutdown ms
            (if cursor_up_test shutdown line m then [] else line)
      end
  end.

Definition handle_csi (max_str_digits : nat) (shutdown : bool)
    (line : list byte) : result (list byte) :=
  match handle_csi_loop max_str_digits shutdown (finditer line) line with
  | inl e => inl e
  | inr line' => inr (remove_csi line')
  end.

(** Lines 264 and 266: what the flush loop does to one line before writing
    it, [_handle_csi(line)] and then [line.rsplit(b'\r')[-1]]. *)
Definition filter_line (max_str_digits : nat) (shutdown : bool)
    (line : list byte) : result (list byte) :=
  match handle_csi max_str_digits shutdown line with
  | inl e => inl e
  | inr line' => inr (List.last (split_on CR line') [])
  end.

(** [bytes.decode()], strict UTF-8: the well-formed byte sequences of the
    Unicode standard (no overlong forms, no surrogates, nothing above
    U+10FFFF). *)
Definition in_range (lo hi : N) (c : byte) : bool :=
  (lo <=? Byte.to_N c)%N && (Byte.to_N c <=? hi)%N.

Fixpoint utf8_valid (l : list byte) : bool :=
  match l with
  | [] => true
  | a :: t =>
      if in_range 0 127 a then utf8_valid t
      else if in_range 194 223 a then
        match t with
        | b :: t' => in_range 128 191 b && utf8_valid t'
        | _ => false
        end
      else if in_range 224 239 a then
        match t with
        | b :: c :: t' =>
            in_range (if Byte.eqb a xe0 then 160 else 128)
                     (if Byte.eqb a xed then 159 else 191) b
            && in_range 128 191 c && utf8_valid t'
        | _ => false
        end
      else if in_range 240 244 a then
        match t with
        | b :: c :: d :: t' =>
            in_range (if Byte.eqb a xf0 then 144 else 128)
                     (if Byte.eqb a xf4 then 143 else 191) b
            && in_range 128 191 c && in_range 128 191 d && utf8_valid t'
        | _ => false
        end
      else false
  end.

Definition decode (l : list byte) : result string :=
  if utf8_valid l then inr (string_of_list_byte l)
  else inl UnicodeDecodeError.

(** ** The process: streams, the class attributes, the heap, the file system *)

Inductive stream : Type := Stdout | Stderr.

(** What [sys.stdout.write] (or [sys.stderr.write], or a saved
    [_old_out_write]) can hold: the stream's own method, or the closure
    [new_out_write] ([new_err_write]) made by [_install_stream_patches].
    [None] is Python's [None]. *)
Inductive write_fn : Type := orig_write | new_write.

(** The argument of a [write] call. *)
Inductive pydata : Type := PyStr (s : string) | PyBytes (b : list byte).

(** [io.BytesIO]: the bytes held and the stream position. *)
Record BytesIO : Type := { contents : list byte; position : nat }.

Definition BytesIO_new : BytesIO := {| contents := []; position := 0 |}.

(** [write] overwrites from the position on, extends as needed (zero-filling
    a gap), and moves the position past what it wrote. *)
Definition BytesIO_write (data : list byte) (b : BytesIO) : BytesIO :=
  match data with
  | [] => b
  | _ :: _ =>
      let padded := contents b ++ repeat x00 (position b - length (contents b)) in
      {| contents := take (position b) padded ++ data
                     ++ drop (position b + length data) padded;
         position := position b + length data |}
  end.

Definition BytesIO_tell (b : BytesIO) : nat := position b.

Definition BytesIO_seek (p : nat) (b : BytesIO) : BytesIO :=
  {| contents := contents b; position := p |}.

Definition BytesIO_read (n : nat) (b : BytesIO) : list byte * BytesIO :=
  let data := take n (drop (position b) (contents b)) in
  (data, {| contents := contents b; position := position b + length data |}).

(** A [LogsMonitor] instance.  [_io_buffer] is the address of its [BytesIO]
    in [buffers]; the registry holds the same address.  Calls on
    [self.experiment] are recorded in the world's [artifact_log]. *)
Record LogsMonitor : Type := {
  run_id : string;
  _log_capture_interval : Q;
  _log_time_interval : Q;
  _io_buffer : nat;
  _shutdown : bool;
  _started : bool;
  artifact_save_dir : string;
  file_save_path : string
}.

Definition set_shutdown (v : bool) (m : LogsMonitor) : LogsMonitor :=
  {| run_id := run_id m;
     _log_capture_interval := _log_capture_interval m;
     _log_time_interval := _log_time_interval m;
     _io_buffer := _io_buffer m;
     _shutdown := v;
     _started := _started m;
     artifact_save_dir := artifact_save_dir m;
     file_save_path := file_save_path m |}.

Definition set_started (v : bool) (m : LogsMonitor) : LogsMonitor :=
  {| run_id := run_id m;
     _log_capture_interval := _log_capture_interval m;
     _log_time_interval := _log_time_interval m;
     _io_buffer := _io_buffer m;
     _shutdown := _shutdown m;
     _started := v;
     artifact_save_dir := artifact_save_dir m;
     file_save_path := file_save_path m |}.

(** [sys.stdout.write], [sys.stderr.write] and the class attributes
    [LogsMonitor._old_out_write], [LogsMonitor._old_err_write].  [installs]
    and [uninstalls] count the executions of [_install_stream_patches] and
    [_uninstall_stream_patches]; nothing reads them. *)
Record patch_state : Type := {
  sys_stdout_write : option write_fn;
  sys_stderr_write : option write_fn;
  _old_out_write : option write_fn;
  _old_err_write : option write_fn;
  installs : nat;
  uninstalls : nat
}.

(** What the process is configured with: [os.environ], the stream the
    handler of [LOGGER] emits on (if it emits on a standard stream) and what
    it makes of a message, and the integer-text digit limit. *)
Record process_config : Type := {
  environ : gmap string string;
  LOGGER_stream : option stream;
  LOGGER_format : string -> string;
  int_max_str_digits : nat
}.

Record world : Type := {
  patches : patch_state;
  _buffer_registry : gmap nat nat;
  monitors : gmap nat LogsMonitor;
  buffers : gmap nat BytesIO;
  terminal_out : list byte;
  terminal_err : list byte;
  files : gmap string (list byte);
  artifact_log : list (string * string);
  config : process_config
}.

Definition with_patches (p : patch_state) (w : world) : world :=
  {| patches := p; _buffer_registry := _buffer_registry w;
     monitors := monitors w; buffers := buffers w;
     terminal_out := terminal_out w; terminal_err := terminal_err w;
     files := files w; artifact_log := artifact_log w; config := config w |}.

Definition with_registry (r : gmap nat nat) (w : world) : world :=
  {| patches := patches w; _buffer_registry := r;
     monitors := monitors w; buffers := buffers w;
     terminal_out := terminal_out w; terminal_err := terminal_err w;
     files := files w; artifact_log := artifact_log w; config := config w |}.

Definition with_monitors (ms : gmap nat LogsMonitor) (w : world) : world :=
  {| patches := patches w; _buffer_registry := _buffer_registry w;
     monitors := ms; buffers := buffers w;
     terminal_out := terminal_out w; terminal_err := terminal_err w;
     files := files w; artifact_log := artifact_log w; config := config w |}.

Definition with_buffers (bs : gmap nat BytesIO) (w : world) : world :=
  {| patches := patches w; _buffer_registry := _buffer_registry w;
     monitors := monitors w; buffers := bs;
     terminal_out := terminal_out w; terminal_err := terminal_err w;
     files := files w; artifact_log := artifact_log w; config := config w |}.

Definition with_terminal (s : stream) (t : list byte) (w : world) : world :=
  {| patches := patches w; _buffer_registry := _buffer_registry w;
     monitors := monitors w; buffers := buffers w;
     terminal_out := match s with Stdout => t | Stderr => terminal_out w end;
     terminal_err := match s with Stdout => terminal_err w | Stderr => t end;
     files := files w; artifact_log := artifact_log w; config := config w |}.

Definition with_files (fs : gmap string (list byte)) (w : world) : world :=
  {| patches := patches w; _buffer_registry := _buffer_registry w;
     monitors := monitors w; buffers := buffers w;
     terminal_out := terminal_out w; terminal_err := terminal_err w;
     files := fs; artifact_log := artifact_log w; config := config w |}.

Definition with_artifact_log (a : list (string * string)) (w : world) : world :=
  {| patches := patches w; _buffer_registry := _buffer_registry w;
     monitors := monitors w; buffers := buffers w;
     terminal_out := terminal_out w; terminal_err := terminal_err w;
     files := files w; artifact_log := a; config := config w |}.

(** A fresh interpreter: nothing patched, no monitor, empty terminals. *)
Definition init_world (c : process_config) (fs : gmap string (list byte)) : world :=
  {| patches := {| sys_stdout_write := Some orig_write;
                   sys_stderr_write := Some orig_write;
                   _old_out_write := None; _old_err_write := None;
                   installs := 0; uninstalls := 0 |};
     _buffer_registry := ∅; monitors := ∅; buffers := ∅;
     terminal_out := []; terminal_err := [];
     files := fs; artifact_log := []; config := c |}.

(** ** Computations: a world threaded through, an exception or a value out *)

Definition M (A : Type) : Type := world -> world * result A.

Definition ret {A : Type} (a : A) : M A := fun w => (w, inr a).

Definition bind {A B : Type} (m : M A) (k : A -> M B) : M B := fun w =>
  match m w with
  | (w', inl e) => (w', inl e)
  | (w', inr a) => k a w'
  end.

Declare Scope py_scope.
Delimit Scope py_scope with py.
Notation "x ← y ; z" := (bind y (fun x : _ => z))
  (at level 20, y at level 100, z at level 200, only parsing) : py_scope.
Notation "x ;; z" := (bind x (fun _ => z))
  (at level 100, z at level 200, only parsing, right associativity) : py_scope.

Definition raise {A : Type} (e : exn) : M A := fun w => (w, inl e).
Definition modify (f : world -> world) : M unit := fun w => (f w, inr tt).

(** ** Writing to the streams (lines 142-169) *)

Definition sys_write_of (s : stream) (p : patch_state) : option write_fn :=
  match s with Stdout => sys_stdout_write p | Stderr => sys_stderr_write p end.

Definition old_write_of (s : stream) (p : patch_state) : option write_fn :=
  match s with Stdout => _old_out_write p | Stderr => _old_err_write p end.

Definition terminal (s : stream) (w : world) : list byte :=
  match s with Stdout => terminal_out w | Stderr => terminal_err w end.

(** [data.encode()] when [data] is a [str], [data] itself otherwise. *)
Definition encode (d : pydata) : list byte :=
  match d with PyStr t => bytes t | PyBytes b => b end.

(** The write method of the real text stream: it takes [str] only. *)
Definition stream_write (s : stream) (data : pydata) : M unit :=
  match data with
  | PyStr t => modify (fun w => with_terminal s (terminal s w ++ bytes t) w)
  | PyBytes _ => raise TypeError
  end.

(** [for buffer in cls._buffer_registry.values(): buffer.write(data)] *)
Definition fan_out (data : list byte) : M unit :=
  modify (fun w =>
    with_buffers
      (foldr (fun a bs => alter (BytesIO_write data) a bs) (buffers w)
             (map snd (map_to_list (_buffer_registry w)))) w).

(** [cls._old_out_write(data)]: the attribute is read when the closure runs.
    If it holds a closure of [_install_stream_patches], that closure reads
    the same attribute again, and so on until the interpreter gives up. *)
Definition call_old (s : stream) (data : pydata) : M unit := fun w =>
  match old_write_of s (patches w) with
  | None => raise TypeError w
  | Some orig_write => stream_write s data w
  | Some new_write => raise RecursionError w
  end.

Definition new_out_write (data : pydata) : M unit :=
  (call_old Stdout data ;; fan_out (encode data))%py.

Definition new_err_write (data : pydata) : M unit :=
  (call_old Stderr data ;; fan_out (encode data))%py.

Definition call_write (s : stream) (f : option write_fn) (data : pydata) : M unit :=
  match f with
  | None => raise TypeError
  | Some orig_write => stream_write s data
  | Some new_write =>
      match s with Stdout => new_out_write data | Stderr => new_err_write data end
  end.

(** [sys.stdout.write(data)] / [sys.stderr.write(data)] as the program, or a
    logging handler, calls it. *)
Definition sys_write (s : stream) (data : pydata) : M unit := fun w =>
  call_write s (sys_write_of s (patches w)) data w.

(** What [_install_stream_patches] makes of the patch state: the current
    write attributes are saved, whatever they are, and the closures put in
    their place. *)
Definition patched (p : patch_state) : patch_state :=
  {| sys_stdout_write := Some new_write;
     sys_stderr_write := Some new_write;
     _old_out_write := sys_stdout_write p;
     _old_err_write := sys_stderr_write p;
     installs := S (installs p);
     uninstalls := uninstalls p |}.

Definition _install_stream_patches : M unit :=
  modify (fun w => with_patches (patched (patches w)) w).

(** What [_uninstall_stream_patches] makes of it: the saved attributes are
    put back, whatever they are. *)
Definition unpatched (p : patch_state) : patch_state :=
  {| sys_stdout_write := _old_out_write p;
     sys_stderr_write := _old_err_write p;
     _old_out_write := _old_out_write p;
     _old_err_write := _old_err_write p;
     installs := installs p;
     uninstalls := S (uninstalls p) |}.

Definition _uninstall_stream_patches : M unit :=
  modify (fun w => with_patches (unpatched (patches w)) w).

(** [LOGGER.info(msg)].  The logger comes from [anemoi.training.utils.logger];
    its handler writes the formatted record to a standard stream through that
    stream's current [write] attribute, and, as [logging.StreamHandler.emit]
    does, lets a [RecursionError] through and keeps every other exception of
    the write to itself. *)
Definition LOGGER_info (msg : string) : M unit := fun w =>
  match LOGGER_stream (config w) with
  | None => (w, inr tt)
  | Some s =>
      match sys_write s (PyStr (LOGGER_format (config w) msg)) w with
      | (w', inl RecursionError) => (w', inl RecursionError)
      | (w', _) => (w', inr tt)
      end
  end.

(** [str.upper()] on ASCII letters; other bytes are left as they are. *)
Definition upper_ascii (c : ascii) : ascii :=
  let n := nat_of_ascii c in
  if (97 <=? n)%nat && (n <=? 122)%nat then ascii_of_nat (n - 32) else c.

Fixpoint upper (s : string) : string :=
  match s with
  | EmptyString => EmptyString
  | String c t => String (upper_ascii c) (upper t)
  end.

(** ** [LogsMonitor] (lines 120-270) *)

(** [LogsMonitor(artifact_save_dir, experiment, run_id, log_time_interval)];
    returns [id] of the new object. *)
Definition LogsMonitor_init (artifact_save_dir0 run_id0 : string)
    (log_time_interval : Q) : M nat := fun w =>
  let i := fresh (dom (monitors w)) in
  let a := fresh (dom (buffers w)) in
  let m := {| run_id := run_id0;
              _log_capture_interval := 1;
              _log_time_interval := log_time_interval;
              _io_buffer := a;
              _shutdown := false;
              _started := false;
              artifact_save_dir := artifact_save_dir0;
              file_save_path := artifact_save_dir0 +:+ "/terminal_log.txt" |} in
  (with_monitors (<[i := m]> (monitors w))
     (with_buffers (<[a := BytesIO_new]> (buffers w)) w), inr i).

(** [with self.file_save_path.open('a') as logfile: logfile.write(text)]:
    the file is created if need be, and the text lands at its end. *)
Definition file_append (path : string) (data : list byte) (w : world) : world :=
  with_files (<[path := default [] (files w !! path) ++ data]> (files w)) w.

Definition nonempty (l : list byte) : bool :=
  match l with [] => false | _ :: _ => true end.

(** The loop of lines 262-267 for the lines still to do: what has gone to
    the log file so far, and how the loop ended. *)
Fixpoint write_lines (max_str_digits : nat) (shutdown : bool)
    (lines : list (list byte)) (written : list byte)
  : list byte * result unit :=
  match lines with
  | [] => (written, inr tt)
  | line :: rest =>
      match filter_line max_str_digits shutdown line with
      | inl e => (written, inl e)
      | inr line' =>
          match decode line' with
          | inl e => (written, inl e)
          | inr text =>
              write_lines max_str_digits shutdown rest
                (written ++ list_byte_of_string text)
          end
      end
  end.

Definition _store_buffered_logs (i : nat) : M unit := fun w =>
  match monitors w !! i with
  | None => (w, inr tt)
  | Some m =>
      match buffers w !! _io_buffer m with
      | None => (w, inr tt)
      | Some b =>
          let _buffer_size := BytesIO_tell b in
          if (_buffer_size =? 0)%nat then (w, inr tt)
          else
            let (data, b1) := BytesIO_read _buffer_size (BytesIO_seek 0 b) in
            let w1 := with_buffers
                        (<[_io_buffer m := BytesIO_seek 0 b1]> (buffers w)) w in
            let lines := map (fun e => e ++ [LF])
                             (List.filter nonempty (split_on LF data)) in
            let (written, r) :=
              write_lines (int_max_str_digits (config w)) (_shutdown m) lines [] in
            let w2 := file_append (file_save_path m) written w1 in
            match r with
            | inl e => (w2, inl e)
            | inr _ =>
                (with_artifact_log
                   (artifact_log w2 ++ [(run_id m, file_save_path m)]) w2,
                 inr tt)
            end
      end
  end.

Definition update_monitor (i : nat) (f : LogsMonitor -> LogsMonitor) : M unit :=
  modify (fun w => with_monitors (alter f i (monitors w)) w).

Definition registry_is_empty (w : world) : bool :=
  bool_decide (_buffer_registry w = ∅).

(** [del self._buffer_registry[id(self)]] *)
Definition registry_del (i : nat) : M unit := fun w =>
  match _buffer_registry w !! i with
  | None => (w, inl KeyError)
  | Some _ => (with_registry (delete i (_buffer_registry w)) w, inr tt)
  end.

(** [start] and [finish].  A method called on an id that names no monitor
    does nothing: no such call can be written in the program.  The thread
    that line 181 starts runs [_log_collector], given further down; in a run
    of calls its flushes appear as [Collect]. *)
Definition start (i : nat) : M unit := fun w =>
  match monitors w !! i with
  | None => (w, inr tt)
  | Some m =>
      if _started m then (w, inr tt)
      else
        (update_monitor i (set_started true) ;;
         (fun w' => if registry_is_empty w' then _install_stream_patches w'
                    else (w', inr tt)) ;;
         modify (fun w' => with_registry (<[i := _io_buffer m]> (_buffer_registry w')) w') ;;
         LOGGER_info ("Termial Log Path: " +:+ file_save_path m) ;;
         (fun w' => match environ (config w') !! "SLURM_JOB_ID" with
                    | Some job =>
                        if String.eqb job EmptyString then (w', inr tt)
                        else LOGGER_info ("SLURM job id: " +:+ job) w'
                    | None => (w', inr tt)
                    end))%py w
  end.

Definition finish (i : nat) (status : string) : M unit := fun w =>
  match monitors w !! i with
  | None => (w, inr tt)
  | Some m =>
      if negb (_started m) then (w, inr tt)
      else
        (LOGGER_info
           ("Stopping terminal log monitoring and saving buffered terminal outputs. Final status: "
            +:+ upper status +:+ ".") ;;
         update_monitor i (set_shutdown true) ;;
         _store_buffered_logs i ;;
         registry_del i ;;
         (fun w' => if registry_is_empty w' then _uninstall_stream_patches w'
                    else (w', inr tt)) ;;
         modify (file_append (file_save_path m) [LF; LF]))%py w
  end.

(** ** Calls made on the process, one after the other *)

Inductive call : Type :=
| New (artifact_save_dir0 run_id0 : string) (log_time_interval : Q)
| Start (i : nat)
| Finish (i : nat) (status : string)
| Write (s : stream) (data : pydata)
| Collect (i : nat).

(** [Collect i] is a flush made by the collector thread of monitor [i]
    (line 224); an exception there ends the thread and reaches no caller. *)
Definition exec (c : call) : M unit :=
  match c with
  | New d r t => (LogsMonitor_init d r t ;; ret tt)%py
  | Start i => start i
  | Finish i status => finish i status
  | Write s data => sys_write s data
  | Collect i => fun w =>
      match monitors w !! i with
      | Some m => if _started m then (fst (_store_buffered_logs i w), inr tt)
                  else (w, inr tt)
      | None => (w, inr tt)
      end
  end.

(** The caller may catch what a call raises and go on: the world a raising
    call leaves behind is the world the next call sees. *)
Fixpoint run (cs : list call) (w : world) : world :=
  match cs with
  | [] => w
  | c :: cs' => run cs' (fst (exec c w))
  end.

(** ** The collector thread (lines 209-225)

    Time is the thread's own: a [time.sleep(d)] takes [d] seconds and nothing
    else takes any.  Durations are Python floats in the source and exact
    rationals here.  [others t0 t1] is what the rest of the program does to
    the world while the thread sleeps from [t0] to [t1]. *)

Inductive collector_end : Type :=
| Exited (clock : Q)             (* left the loop through [break] *)
| Died (clock : Q) (e : exn)     (* an exception ended the thread *)
| Running (clock counter : Q).   (* still looping when the fuel ran out *)

Fixpoint _log_collector (fuel : nat) (others : Q -> Q -> world -> world)
    (i : nat) (clock log_capture_time_counter : Q) (w : world)
  : world * collector_end :=
  match fuel with
  | O => (w, Running clock log_capture_time_counter)
  | S fuel' =>
      match monitors w !! i with
      | None => (w, Exited clock)
      | Some m =>
          if _shutdown m then (w, Exited clock)
          else if Qle_bool 0 (_log_time_interval m) then
            let clock' := (clock + _log_time_interval m)%Q in
            let w1 := others clock clock' w in
            let counter := (log_capture_time_counter + _log_time_interval m)%Q in
            if negb (Qle_bool counter (_log_capture_interval m)) then
              match _store_buffered_logs i w1 with
              | (w2, inl e) => (w2, Died clock' e)
              | (w2, inr _) => _log_collector fuel' others i clock' 0 w2
              end
            else _log_collector fuel' others i clock' counter w1
          else (w, Died clock ValueError)
      end
  end.

(** The owner sets [_shutdown] at time [T] and does nothing else. *)
Definition sets_shutdown_at (i : nat) (T : Q) : Q -> Q -> world -> world :=
  fun t0 t1 w =>
    if negb (Qle_bool T t0) && Qle_bool T t1
    then with_monitors (alter (set_shutdown true) i (monitors w)) w
    else w.

(** ** [health_check] (lines 34-49) *)

Record http_request : Type := {
  url : string;
  headers : list (string * string);
  timeout : Z
}.

Record http_response : Type := { text : string }.

(** How an f-string renders the result of [os.getenv]. *)
Definition format_optional (o : option string) : string :=
  match o with Some t => t | None => "None" end.

(** [not token]: the variable is unset, or set to the empty text. *)
Definition no_token (token : option string) : bool :=
  match token with
  | None => true
  | Some t => String.eqb t EmptyString
  end.

(** The request made, and how the call ends.  [requests_get] stands for the
    server and the network: it answers the request or raises. *)
Definition health_check (env : gmap string string)
    (requests_get : http_request -> result http_response)
    (tracking_uri : string) : http_request * result unit :=
  let token := env !! "MLFLOW_TRACKING_TOKEN" in
  let request :=
    {| url := tracking_uri +:+ "/health";
       headers := [("Authorization", "Bearer " +:+ format_optional token)];
       timeout := 60 |} in
  (request,
   match requests_get request with
   | inl e => inl e
   | inr response =>
       if String.eqb (text response) "OK" then inr tt
       else
         let error_msg :=
           "Could not connect to MLflow server at " +:+ tracking_uri +:+ ". " in
         let error_msg :=
           if no_token token
           then error_msg +:+
                "The server may require authentication, did you forget to turn it on in the config?"
           else error_msg in
         inl (ConnectionError error_msg)
   end).

(** ** [AnemoiMLflowLogger.log_hyperparams] (lines 366-393)

    A dict is the list of its items in insertion order.  In this part a
    [string] lists the characters of a [str], since slicing counts
    characters. *)



Definition prefixes_to_remove : list string :=
  ["hardware"; "data"; "dataloader"; "model"; "training"; "diagnostics";
   "metadata.config"].



Section Hyperparams.
(** [Params] is what the caller passes (a dict or a Namespace), [Nested]
    the dict made of it, [V] a leaf value.  The two helpers come from
    pytorch_lightning; [str] is Python's. *)
Context {Params Nested V : Type}.
Variable _convert_params : Params -> Nested.
Variable _flatten_dict : Nested -> string -> list (string * V).
Variable str : V -> string.

(** [del params[key]] *)
Definition dict_del (k : string) (params : list (string * V)) : list (string * V) :=
  List.filter (fun kv => negb (String.eqb (fst kv) k)) params.

Definition to_remove (k : string) : bool :=
  existsb (fun prefix => String.prefix prefix k) prefixes_to_remove.

Definition _clean_params (params : list (string * V)) : list (string * V) :=
  let keys_to_remove :=
    List.filter to_remove (map fst params) in
  fold_left (fun ps k => dict_del k ps) keys_to_remove params.



End Hyperparams.

(** ** Notions the statements are phrased in *)

(** A cursor-up sequence begins here: ESC, an opening bracket, parameter
    bytes, the letter A. *)
Definition cursor_up_at (l : list byte) : Prop :=
  exists params rest,
    l = ESC :: x5b :: params ++ x41 :: rest /\ forallb is_param params = true.

Definition contains_cursor_up (l : list byte) : Prop :=
  exists pre suf, l = pre ++ suf /\ cursor_up_at suf.

(** Some recognised sequence begins somewhere in the line. *)
Definition contains_csi (l : list byte) : Prop :=
  exists pre suf m rest, l = pre ++ suf /\ match_csi suf = Some (m, rest).

(** The longest prefix free of [sep], and through it the content after the
    last [sep]. *)
Fixpoint up_to (sep : byte) (l : list byte) : list byte :=
  match l with
  | [] => []
  | c :: t => if Byte.eqb c sep then [] else c :: up_to sep t
  end.

Definition after_last (sep : byte) (l : list byte) : list byte :=
  rev (up_to sep (rev l)).



(** [needle] occurs in [hay]. *)
Definition substring_of (needle hay : list byte) : Prop :=
  exists pre post, hay = pre ++ needle ++ post.

(** Every parameter text the scan finds in the line can be read as an
    integer (line 250 raises on none of them). *)
Definition args_convert (max_str_digits : nat) (line : list byte) : bool :=
  forallb (fun m => match arg_value max_str_digits (arg m) with
                    | Some _ => true
                    | None => false
                    end)
          (finditer line).

(** The condition under which the policy drops the whole line. *)
Definition suppressed (shutdown : bool) (line : list byte) : Prop :=
  contains_cursor_up line /\
  ~ substring_of (bytes "0%") line /\
  shutdown = false /\
  ~ substring_of (bytes "[INFO]") line /\
  ~ substring_of (bytes "[DEBUG]") line.

(** What a call leaves alone when it only touches terminals, buffers, files
    and the artifact log. *)
Definition same_core (w w' : world) : Prop :=
  patches w' = patches w /\
  _buffer_registry w' = _buffer_registry w /\
  monitors w' = monitors w /\
  config w' = config w.



(** A process to run the examples in: the logger writes each record, ended
    by a newline, to standard error; no scheduler variable is set. *)
Definition example_config : process_config :=
  {| environ := ∅;
     LOGGER_stream := Some Stderr;
     LOGGER_format := fun msg => (msg +:+ String "010" EmptyString)%string;
     int_max_str_digits := 4300 |}.

(** The thread is over at time [t]: it left the loop, or an exception ended
    it. *)
Definition ended_at (e : collector_end) (t : Q) : Prop :=
  e = Exited t \/ exists x, e = Died t x.

(** The text added to the message when no token is configured. *)
Definition authentication_hint : string :=
  "The server may require authentication, did you forget to turn it on in the config?".

(** A server that answers every request with one fixed body. *)
Definition always_answers (body : string) : http_request -> result http_response :=
  fun _ => inr {| text := body |}.

(** ** Further notions *)

(** A run of [write] calls on one buffer, first to last. *)
Definition BytesIO_writes (ds : list (list byte)) (b : BytesIO) : BytesIO :=
  fold_left (fun b d => BytesIO_write d b) ds b.


(** Line 237: the lines a flush makes of the bytes it read. *)
Definition buffered_lines (data : list byte) : list (list byte) :=
  map (fun e => e ++ [LF]) (List.filter nonempty (split_on LF data)).

(** Plain text: ASCII, with no escape byte and no carriage return. *)
Definition plain_byte (c : byte) : bool :=
  in_range 0 127 c && negb (Byte.eqb c ESC) && negb (Byte.eqb c CR).

(** The record [finish] logs first (lines 190-194). *)
Definition stopping_message (status : string) : string :=
  ("Stopping terminal log monitoring and saving buffered terminal outputs. Final status: "
   +:+ upper status +:+ ".")%string.

(** No buffer goes away from [w] to [w']. *)
Definition buffers_kept (w w' : world) : Prop :=
  forall a, is_Some (buffers w !! a) -> is_Some (buffers w' !! a).

(** Every file of [w] is still there in [w'], with its old content at the
    head of the new. *)
Definition files_grow (w w' : world) : Prop :=
  forall p c, files w !! p = Some c ->
    exists more, files w' !! p = Some (c ++ more).

(** A step that touches neither the patch state, the registry, the monitors
    nor the configuration, drops no buffer and only appends to files. *)
Definition quiet (w w' : world) : Prop :=
  same_core w w' /\ buffers_kept w w' /\ files_grow w w'.



(** What one call can do to the monitors and the registry: nothing, mark a
    monitor started and register its buffer, raise a monitor's shutdown flag
    and perhaps unregister it, or add a new monitor with a new buffer. *)
Definition transition (w w' : world) : Prop :=
  buffers_kept w w' /\ files_grow w w' /\
  ((monitors w' = monitors w /\ _buffer_registry w' = _buffer_registry w) \/
   (exists i m,
      monitors w !! i = Some m /\ _started m = false /\
      monitors w' = alter (set_started true) i (monitors w) /\
      _buffer_registry w' = <[i := _io_buffer m]> (_buffer_registry w)) \/
   (exists i m,
      monitors w !! i = Some m /\ _started m = true /\
      monitors w' = alter (set_shutdown true) i (monitors w) /\
      (_buffer_registry w' = _buffer_registry w \/
       _buffer_registry w' = delete i (_buffer_registry w))) \/
   (exists i m,
      monitors w !! i = None /\ buffers w !! _io_buffer m = None /\
      _started m = false /\ _shutdown m = false /\
      is_Some (buffers w' !! _io_buffer m) /\
      monitors w' = <[i := m]> (monitors w) /\
      _buffer_registry w' = _buffer_registry w)).

(** A monitor as it was and as it is later: the same run, path, intervals
    and buffer, and no flag cleared. *)
Definition advances (m m' : LogsMonitor) : Prop :=
  run_id m' = run_id m /\
  _log_capture_interval m' = _log_capture_interval m /\
  _log_time_interval m' = _log_time_interval m /\
  _io_buffer m' = _io_buffer m /\
  artifact_save_dir m' = artifact_save_dir m /\
  file_save_path m' = file_save_path m /\
  (_started m = true -> _started m' = true) /\
  (_shutdown m = true -> _shutdown m' = true).


(** ** [get_mlflow_run_params] (lines 52-91) *)

(** Truth value of a setting that is a text or [None]. *)
Definition truthy (o : option string) : bool :=
  match o with
  | Some s => negb (String.eqb s EmptyString)
  | None => false
  end.

(** [str.split(sep)] for a one-character separator. *)
Fixpoint str_split (sep : ascii) (s : string) : list string :=
  match s with
  | EmptyString => [EmptyString]
  | String c t =>
      if Ascii.eqb c sep then EmptyString :: str_split sep t
      else match str_split sep t with
           | h :: r => String c h :: r
           | [] => [String c EmptyString]
           end
  end.

(** The settings the function reads: [config.diagnostics.log.mlflow.*] and
    [config.training.*]. *)
Record run_config : Type := {
  project_name : string;
  authentication : bool;
  offline : bool;
  on_resume_create_child : bool;
  run_name : option string;
  training_run_id : option string;
  training_fork_run_id : option string
}.

(** The tracking server and the token service, as the function meets them:
    each call answers or raises. *)
Record mlflow_server : Type := {
  authenticate : string -> result unit;
  get_run_name : string -> result string;
  update_run : string -> string -> result unit
}.

(** The calls made, in order. *)
Inductive mlflow_call : Type :=
| TokenAuthenticate (tracking_uri : string)
| GetRun (id : string)
| UpdateRun (id status : string).

(** Lines 54-59: the tags every run gets.  [argv0 :: args] is [sys.argv]. *)
Definition base_tags (argv0 : string) (args : list string) (config : run_config)
  : gmap string string :=
  let tags : gmap string string := {[ "projectName"%string := project_name config ]} in
  let tags := <[ "command"%string := List.last (str_split "/" argv0) EmptyString ]> tags in
  if (1 <? length (argv0 :: args))%nat
  then <[ "command"%string :=
            (default EmptyString (tags !! "command"%string) +:+ " "
             +:+ String.concat " " args)%string ]> tags
  else tags.

(** Lines 85-91.  [uuid4] is the text of the identifier drawn when no name is
    configured. *)
Definition final_run_name (uuid4 : string) (config : run_config) : string :=
  if truthy (run_name config) then default EmptyString (run_name config)
  else uuid4.

Definition get_mlflow_run_params (argv0 : string) (args : list string)
    (uuid4 : string) (server : mlflow_server) (config : run_config)
    (tracking_uri : string)
  : list mlflow_call * result (option string * string * gmap string string) :=
  let tags := base_tags argv0 args config in
  if truthy (training_run_id config) || truthy (training_fork_run_id config) then
    let '(calls, authenticated) :=
      if authentication config && negb (offline config)
      then ([TokenAuthenticate tracking_uri], authenticate server tracking_uri)
      else ([], inr tt) in
    match authenticated with
    | inl e => (calls, inl e)
    | inr _ =>
        if truthy (training_run_id config) && on_resume_create_child config then
          let parent_run_id := default EmptyString (training_run_id config) in
          match get_run_name server parent_run_id with
          | inl e => (calls ++ [GetRun parent_run_id], inl e)
          | inr _ =>
              (calls ++ [GetRun parent_run_id],
               inr (None, final_run_name uuid4 config,
                    <[ "resumedRun"%string := "True"%string ]>
                      (<[ "mlflow.parentRunId"%string := parent_run_id ]> tags)))
          end
        else if truthy (training_run_id config)
                && negb (on_resume_create_child config) then
          let run_id := default EmptyString (training_run_id config) in
          match get_run_name server run_id with
          | inl e => (calls ++ [GetRun run_id], inl e)
          | inr _ =>
              match update_run server run_id "RUNNING" with
              | inl e => (calls ++ [GetRun run_id; UpdateRun run_id "RUNNING"], inl e)
              | inr _ =>
                  (calls ++ [GetRun run_id; UpdateRun run_id "RUNNING"],
                   inr (Some run_id, final_run_name uuid4 config,
                        <[ "resumedRun"%string := "True"%string ]> tags))
              end
          end
        else
          let parent_run_id := default EmptyString (training_fork_run_id config) in
          (calls,
           inr (None, final_run_name uuid4 config,
                <[ "forkedRunId"%string := parent_run_id ]>
                  (<[ "forkedRun"%string := "True"%string ]> tags)))
    end
  else ([], inr (None, final_run_name uuid4 config, tags)).

(** The character occurs in the text. *)
Fixpoint string_in (c : ascii) (s : string) : Prop :=
  match s with
  | EmptyString => False
  | String d t => c = d \/ string_in c t
  end.

(** A server whose runs carry other names: every answer of [get_run] is
    renamed by [f]. *)
Definition renamed (f : string -> string) (server : mlflow_server) : mlflow_server :=
  {| authenticate := authenticate server;
     get_run_name := fun id =>
       match get_run_name server id with
       | inl e => inl e
       | inr name => inr (f name)
       end;
     update_run := update_run server |}.

(** The six keys the function can set. *)
Definition tag_keys : list string :=
  [ "projectName"; "command"; "mlflow.parentRunId"; "resumedRun"; "forkedRun";
    "forkedRunId" ]%string.

(** Case analysis on the tests and the answers the function depends on, in
    the order in which it meets them. *)
Ltac run_params_cases server config tracking_uri :=
  unfold get_mlflow_run_params;
  destruct (truthy (training_run_id config));
  destruct (truthy (training_fork_run_id config));
  cbn [orb andb negb];
  try (destruct (authentication config && negb (offline config));
       [destruct (authenticate server tracking_uri) as [?e|[]]|];
       try (destruct (on_resume_create_child config);
            destruct (get_run_name server (default EmptyString (training_run_id config)))
              as [?e|?n];
            try destruct (update_run server (default EmptyString (training_run_id config))
                            "RUNNING") as [?e|[]]));
  cbn [orb andb negb app fst snd].

(** A server that answers every call, and a configuration that resumes run
    [abc] in place while also naming a run to fork from. *)
Definition answering_server : mlflow_server :=
  {| authenticate := fun _ => inr tt;
     get_run_name := fun _ => inr "old-name"%string;
     update_run := fun _ _ => inr tt |}.

Definition example_run_config : run_config :=
  {| project_name := "anemoi";
     authentication := true;
     offline := false;
     on_resume_create_child := false;
     run_name := None;
     training_run_id := Some "abc"%string;
     training_fork_run_id := Some "def"%string |}.

(** ** [AnemoiMLflowLogger.__init__] (lines 276-327) *)

(** [a and not b] for an [Optional[bool]] [a]: a false or absent [a] is the
    value itself. *)
Definition and_not (a : option bool) (b : bool) : option bool :=
  match a with
  | Some true => Some (negb b)
  | _ => a
  end.

Definition is_true_flag (a : option bool) : bool :=
  match a with Some true => true | _ => false end.

(** What the constructor calls outside this file, in order: the token helper
    of [anemoi.training.diagnostics.mlflow.auth], the health endpoint, and the
    constructor of [MLFlowLogger] with the two arguments the method computes. *)
Inductive init_call : Type :=
| TokenAuth_new (tracking_uri : option string) (enabled : option bool)
| TokenAuth_authenticate
| Health (request : http_request)
| MLFlowLogger_init (tracking_uri save_dir : option string).

(** [rank] is [rank_zero_only.rank]; [auth_authenticate] is how
    [self.auth.authenticate()] ends.  A normal return means that control
    reached [super().__init__]. *)
Definition AnemoiMLflowLogger_init (rank : nat)
    (requests_get : http_request -> result http_response)
    (auth_authenticate : result unit)
    (tracking_uri0 save_dir0 : option string) (offline0 : bool)
    (authentication0 : option bool)
  : world -> world * (list init_call * result unit) := fun w =>
  let tracking_uri := if offline0 then None else tracking_uri0 in
  let save_dir := if offline0 then save_dir0 else None in
  let super_init := MLFlowLogger_init tracking_uri save_dir in
  if (rank =? 0)%nat then
    let enabled := and_not authentication0 offline0 in
    let auth := TokenAuth_new tracking_uri enabled in
    if offline0 then
      match LOGGER_info "MLflow is logging offline." w with
      | (w1, inl e) => (w1, ([auth], inl e))
      | (w1, inr _) => (w1, ([auth; super_init], inr tt))
      end
    else
      match LOGGER_info
              ("MLflow token authentication "
               +:+ (if is_true_flag enabled then "enabled" else "disabled")
               +:+ " for " +:+ format_optional tracking_uri) w with
      | (w1, inl e) => (w1, ([auth], inl e))
      | (w1, inr _) =>
          match auth_authenticate with
          | inl e => (w1, ([auth; TokenAuth_authenticate], inl e))
          | inr _ =>
              let '(request, checked) :=
                health_check (environ (config w1)) requests_get
                  (format_optional tracking_uri) in
              match checked with
              | inl e => (w1, ([auth; TokenAuth_authenticate; Health request], inl e))
              | inr _ =>
                  (w1, ([auth; TokenAuth_authenticate; Health request; super_init],
                        inr tt))
              end
          end
      end
  else (w, ([super_init], inr tt)).

(** ** An idle program *)

(** The rest of the program does nothing while the thread sleeps. *)
Definition idle : Q -> Q -> world -> world := fun _ _ w => w.

(** * Properties *)

(** ** The scan *)

Lemma span_params_spec l p r :
  span_params l = (p, r) ->
  l = p ++ r /\ forallb is_param p = true /\
  match r with [] => True | c :: _ => is_param c = false end.
Proof.
  revert p r. induction l as [|c t IH]; intros p r; simpl.
  - intros [= <- <-]. auto.
  - destruct (is_param c) eqn:Hc.
    + destruct (span_params t) as [p' r'] eqn:Ht. intros [= <- <-].
      destruct (IH _ _ eq_refl) as (-> & Hp & Hr). simpl. rewrite Hc. auto.
    + intros [= <- <-]. simpl. rewrite Hc. auto.
Qed.

Lemma span_params_run p r :
  forallb is_param p = true ->
  match r with [] => True | c :: _ => is_param c = false end ->
  span_params (p ++ r) = (p, r).
Proof.
  intros Hp Hr. induction p as [|c p IH]; simpl in *.
  - destruct r as [|c t]; [reflexivity|]. simpl. rewrite Hr. reflexivity.
  - apply andb_prop in Hp as [Hc Hp]. rewrite Hc, (IH Hp). reflexivity.
Qed.

Lemma match_csi_shorter l m rest :
  match_csi l = Some (m, rest) -> (length rest < length l)%nat.
Proof. destruct l as [|c t]; intros e; [discriminate e|]. match_leaves_less e. Qed.

Lemma finditer_cons c t :
  finditer (c :: t) =
  match match_csi (c :: t) with
  | Some (m, rest) => m :: finditer rest
  | None => finditer t
  end.
Proof.
  simp finditer.
  destruct (inspect (match_csi (c :: t))) as [[[m rest]|] e];
    simpl; rewrite e; reflexivity.
Qed.

Lemma remove_csi_cons c t :
  remove_csi (c :: t) =
  match match_csi (c :: t) with
  | Some (m, rest) => remove_csi rest
  | None => c :: remove_csi t
  end.
Proof.
  simp remove_csi.
  destruct (inspect (match_csi (c :: t))) as [[[m rest]|] e];
    simpl; rewrite e; reflexivity.
Qed.

(** Induction along the scan. *)
Lemma scan_ind (P : list byte -> Prop) :
  P [] ->
  (forall c t, match_csi (c :: t) = None -> P t -> P (c :: t)) ->
  (forall c t m rest, match_csi (c :: t) = Some (m, rest) -> P rest -> P (c :: t)) ->
  forall l, P l.
Proof.
  intros Hnil Hskip Hmatch l.
  remember (length l) as n eqn:Hn. revert l Hn.
  induction n as [n IH] using lt_wf_ind. intros [|c t] Hn; [exact Hnil|].
  destruct (match_csi (c :: t)) as [[m rest]|] eqn:E.
  - apply (Hmatch _ _ _ _ E). apply (IH (length rest)); [|reflexivity].
    apply match_csi_shorter in E. lia.
  - apply (Hskip _ _ E). apply (IH (length t)); [|reflexivity].
    subst n. simpl. lia.
Qed.

Lemma byte_eqb_true (a b : byte) : Byte.eqb a b = true <-> a = b.
Proof. split; [apply Byte.byte_dec_bl | apply Byte.byte_dec_lb]. Qed.

Lemma byte_eqb_refl (a : byte) : Byte.eqb a a = true.
Proof. apply byte_eqb_true. reflexivity. Qed.

(** What a match consumed. *)
Lemma match_body_spec l m rest :
  match_body l = Some (m, rest) ->
  exists stx,
    l = ESC :: x5b :: arg m ++ command m :: stx ++ rest /\
    forallb is_param (arg m) = true /\
    is_command (command m) = true /\
    (stx = [] \/ stx = [STX]).
Proof.
  unfold match_body. destruct l as [|e [|o t]]; try discriminate.
  destruct (Byte.eqb e ESC) eqn:He; simpl; try discriminate.
  destruct (Byte.eqb o "[") eqn:Ho; simpl; try discriminate.
  apply byte_eqb_true in He, Ho. subst e o.
  destruct (span_params t) as [p r] eqn:Ht.
  apply span_params_spec in Ht as (-> & Hp & _).
  destruct r as [|c t2]; try discriminate.
  destruct (is_command c) eqn:Hc; try discriminate.
  intros [= <- <-]. simpl.
  destruct t2 as [|x t3]; simpl.
  - exists []. auto.
  - destruct (Byte.eqb x STX) eqn:Hx.
    + apply byte_eqb_true in Hx. subst x. exists [STX]. simpl. auto.
    + exists []. auto.
Qed.

Lemma match_csi_spec l m rest :
  match_csi l = Some (m, rest) ->
  match_body l = Some (m, rest) \/
  exists l', l = SOH :: l' /\ match_body l' = Some (m, rest).
Proof.
  unfold match_csi, strip_opt. destruct l as [|c t]; [discriminate|].
  destruct (Byte.eqb c SOH) eqn:Hc; auto.
  apply byte_eqb_true in Hc. subst c. eauto.
Qed.

(** A cursor-up sequence at the head is matched, with the letter A. *)
Lemma match_body_cursor_up l :
  cursor_up_at l ->
  exists p rest, match_body l = Some ({| arg := p; command := x41 |}, rest).
Proof.
  intros (params & rest & -> & Hp). simpl.
  rewrite (span_params_run params (x41 :: rest) Hp eq_refl). simpl. eauto.
Qed.

Lemma match_csi_cursor_up l :
  cursor_up_at l ->
  exists m rest, match_csi l = Some (m, rest) /\ command m = x41.
Proof.
  intros H. pose proof (match_body_cursor_up l H) as (p & rest & Hb).
  destruct H as (params & r & -> & _).
  unfold match_csi. simpl strip_opt. rewrite Hb. eauto.
Qed.

(** A match with the letter A is a cursor-up sequence in the input. *)
Lemma match_csi_A_contains l m rest :
  match_csi l = Some (m, rest) -> command m = x41 -> contains_cursor_up l.
Proof.
  intros H HA.
  apply match_csi_spec in H as [H | (l' & -> & H)];
    apply match_body_spec in H as (stx & -> & Hp & _ & _); rewrite HA.
  - exists [], (ESC :: x5b :: arg m ++ x41 :: stx ++ rest).
    split; [reflexivity|]. exists (arg m), (stx ++ rest). auto.
  - exists [SOH], (ESC :: x5b :: arg m ++ x41 :: stx ++ rest).
    split; [reflexivity|]. exists (arg m), (stx ++ rest). auto.
Qed.

(** What a match leaves is a tail of what it was given. *)
Lemma match_csi_suffix l m rest :
  match_csi l = Some (m, rest) -> exists used, l = used ++ rest.
Proof.
  intros H.
  apply match_csi_spec in H as [H | (l' & -> & H)];
    apply match_body_spec in H as (stx & -> & _).
  - exists (ESC :: x5b :: arg m ++ command m :: stx).
    simpl. rewrite <- !app_assoc. reflexivity.
  - exists (SOH :: ESC :: x5b :: arg m ++ command m :: stx).
    simpl. rewrite <- !app_assoc. reflexivity.
Qed.

Lemma contains_cursor_up_app pre l :
  contains_cursor_up l -> contains_cursor_up (pre ++ l).
Proof.
  intros (p & s & -> & H). exists (pre ++ p), s. rewrite app_assoc. auto.
Qed.

(** An ESC further on stops a match that began before it: the parameter run
    and the optional STX cannot take it in. *)
Lemma span_params_barrier a suf :
  match suf with [] => True | c :: _ => is_param c = false end ->
  span_params (a ++ suf) =
  (fst (span_params a), snd (span_params a) ++ suf).
Proof.
  intros Hs. induction a as [|c a IH]; simpl.
  - destruct suf as [|x s]; [reflexivity|]. simpl. rewrite Hs. reflexivity.
  - destruct (is_param c); [|reflexivity].
    rewrite IH. destruct (span_params a). reflexivity.
Qed.

Lemma match_body_barrier pre suf m rest :
  pre <> [] ->
  match_body (pre ++ ESC :: suf) = Some (m, rest) ->
  exists q, rest = q ++ ESC :: suf.
Proof.
  intros Hpre. unfold match_body.
  destruct pre as [|e pre]; [congruence|]. simpl.
  destruct pre as [|o pre]; simpl.
  - destruct (Byte.eqb e ESC); simpl; discriminate.
  - destruct (Byte.eqb e ESC && Byte.eqb o "["); [|discriminate].
    rewrite (span_params_barrier pre (ESC :: suf) eq_refl).
    destruct (span_params pre) as [p r]. simpl.
    destruct r as [|c t2]; simpl; [discriminate|].
    destruct (is_command c); [|discriminate].
    intros [= <- <-].
    destruct t2 as [|x t3]; simpl; [exists []; reflexivity|].
    destruct (Byte.eqb x STX); [exists t3 | exists (x :: t3)]; reflexivity.
Qed.

Lemma match_csi_barrier pre suf m rest :
  pre <> [] ->
  match_csi (pre ++ ESC :: suf) = Some (m, rest) ->
  (exists q, rest = q ++ ESC :: suf) \/
  (pre = [SOH] /\ match_body (ESC :: suf) = Some (m, rest)).
Proof.
  intros Hpre. unfold match_csi, strip_opt.
  destruct pre as [|c pre]; [congruence|]. simpl.
  destruct (Byte.eqb c SOH) eqn:Hc.
  - apply byte_eqb_true in Hc. subst c.
    destruct pre as [|d pre]; [auto|].
    intros H. left. eapply (match_body_barrier (d :: pre)); [discriminate|exact H].
  - intros H. left. eapply (match_body_barrier (c :: pre)); [discriminate|exact H].
Qed.

(** The scan yields a match with the letter A exactly when the line holds a
    cursor-up sequence. *)
Lemma finditer_cursor_up l :
  existsb is_cursor_up (finditer l) = true <-> contains_cursor_up l.
Proof.
  induction l as [|c t Hnone IH|c t m rest Hsome IH] using scan_ind.
  - split; [discriminate|].
    intros (pre & suf & E & (ps & r & -> & _)). destruct pre; discriminate.
  - rewrite finditer_cons, Hnone, IH. split.
    + apply (contains_cursor_up_app [c]).
    + intros (pre & suf & E & Hs). destruct pre as [|c' pre].
      * simpl in E. subst suf.
        apply match_csi_cursor_up in Hs as (m & r & Hm & _). congruence.
      * injection E as -> ->. exists pre, suf. auto.
  - rewrite finditer_cons, Hsome. simpl. rewrite orb_true_iff, IH. split.
    + intros [HA | Hr].
      * apply (match_csi_A_contains _ _ _ Hsome). apply byte_eqb_true, HA.
      * apply match_csi_suffix in Hsome as [used ->].
        apply contains_cursor_up_app, Hr.
    + intros (pre & suf & E & Hs).
      destruct (is_cursor_up m) eqn:HA; [auto|right].
      destruct pre as [|c' pre].
      * simpl in E. subst suf.
        apply match_csi_cursor_up in Hs as (m' & r & Hm & Hc).
        rewrite Hsome in Hm. injection Hm as <- <-.
        unfold is_cursor_up in HA. rewrite Hc in HA. discriminate.
      * assert (Hcu := Hs). destruct Hs as (ps & r & -> & Hps).
        rewrite E in Hsome.
        apply match_csi_barrier in Hsome as [[q ->] | [_ Hb]]; [| |discriminate].
        -- apply contains_cursor_up_app. exists [], (ESC :: x5b :: ps ++ x41 :: r).
           auto.
        -- apply match_body_cursor_up in Hcu as (p' & r' & Hb').
           rewrite Hb in Hb'. injection Hb' as -> _.
           unfold is_cursor_up in HA. simpl in HA. discriminate.
Qed.

(** ** Substring tests *)

Lemma startswith_spec p l :
  startswith p l = true <-> exists post, l = p ++ post.
Proof.
  revert l. induction p as [|a p IH]; intros l; simpl.
  - split; eauto.
  - destruct l as [|b l].
    + split; [discriminate|]. intros [post E]. discriminate.
    + rewrite andb_true_iff, byte_eqb_true, IH. split.
      * intros [-> [post ->]]. eauto.
      * intros [post [= -> ->]]. eauto.
Qed.

Lemma bytes_in_spec needle hay :
  bytes_in needle hay = true <-> substring_of needle hay.
Proof.
  unfold substring_of. induction hay as [|c t IH]; simpl.
  - rewrite startswith_spec. split.
    + intros [post E]. exists [], post. exact E.
    + intros (pre & post & E). destruct pre; [|discriminate]. eauto.
  - rewrite orb_true_iff, startswith_spec, IH. split.
    + intros [[post E] | (pre & post & ->)].
      * exists [], post. exact E.
      * exists (c :: pre), post. reflexivity.
    + intros (pre & post & E). destruct pre as [|c' pre].
      * left. eauto.
      * right. injection E as -> ->. eauto.
Qed.

Lemma bytes_in_false needle hay :
  bytes_in needle hay = false <-> ~ substring_of needle hay.
Proof.
  rewrite <- bytes_in_spec. destruct (bytes_in needle hay); split; try easy.
Qed.

(** ** The loop of [_handle_csi] (C3) *)

Lemma handle_csi_loop_ok max sd ms line :
  forallb (fun m => match arg_value max (arg m) with
                    | Some _ => true
                    | None => false
                    end) ms = true ->
  handle_csi_loop max sd ms line =
  inr (if existsb (cursor_up_test sd line) ms then [] else line).
Proof.
  revert line. induction ms as [|m ms IH]; intros line H; simpl in *.
  - reflexivity.
  - apply andb_prop in H as [Hm Hms].
    destruct (arg_value max (arg m)); [|discriminate].
    rewrite (IH _ Hms).
    destruct (cursor_up_test sd line m); simpl; [|reflexivity].
    destruct (existsb _ ms); reflexivity.
Qed.

Lemma handle_csi_loop_raises max sd ms line :
  forallb (fun m => match arg_value max (arg m) with
                    | Some _ => true
                    | None => false
                    end) ms = false ->
  handle_csi_loop max sd ms line = inl ValueError.
Proof.
  revert line. induction ms as [|m ms IH]; intros line H; simpl in *.
  - discriminate.
  - destruct (arg_value max (arg m)); [|reflexivity]. simpl in H. auto.
Qed.

Lemma existsb_cursor_up_test sd line ms :
  existsb (cursor_up_test sd line) ms =
  existsb is_cursor_up ms
  && (negb (bytes_in (bytes "0%") line) && negb sd
      && negb (bytes_in (bytes "[INFO]") line)
      && negb (bytes_in (bytes "[DEBUG]") line)).
Proof.
  induction ms as [|m ms IH]; simpl; [reflexivity|].
  rewrite IH. unfold cursor_up_test.
  destruct (is_cursor_up m), (existsb is_cursor_up ms); simpl;
    try reflexivity.
  - destruct (negb _ && negb sd && negb _ && negb _); reflexivity.
  - destruct (negb _ && negb sd && negb _ && negb _); reflexivity.
Qed.

Lemma suppressed_test sd line :
  existsb (cursor_up_test sd line) (finditer line) = true <-> suppressed sd line.
Proof.
  rewrite existsb_cursor_up_test. unfold suppressed.
  rewrite !andb_true_iff, !negb_true_iff, !bytes_in_false, finditer_cursor_up.
  tauto.
Qed.

(** The policy of [_handle_csi], on the lines it does not raise on: the line
    is emptied exactly under the stated condition, and the recognised
    sequences are then removed from what is left. *)
Lemma handle_csi_policy max sd line :
  args_convert max line = true ->
  (suppressed sd line -> handle_csi max sd line = inr []) /\
  (~ suppressed sd line -> handle_csi max sd line = inr (remove_csi line)).
Proof.
  intros H. unfold handle_csi. rewrite (handle_csi_loop_ok _ _ _ _ H).
  rewrite <- suppressed_test.
  destruct (existsb _ _); split; intros; try easy.
Qed.

Lemma handle_csi_raises max sd line :
  args_convert max line = false -> handle_csi max sd line = inl ValueError.
Proof.
  intros H. unfold handle_csi. rewrite (handle_csi_loop_raises _ _ _ _ H).
  reflexivity.
Qed.

(** C3, at the input on which the code departs from it.  The line
    ESC [ 1 ; 2 A holds a cursor-up sequence, no 0%, no [INFO] and no
    [DEBUG], so with the shutdown flag down the policy wants it emptied; the
    pattern accepts the semicolon among the parameters, and line 250 then
    hands the text 1;2 to [int], which raises. *)
Theorem handle_csi_semicolon_raises :
  suppressed false (ESC :: bytes "[1;2A") /\
  forall max sd, handle_csi max sd (ESC :: bytes "[1;2A") = inl ValueError.
Proof.
  split.
  - apply suppressed_test. reflexivity.
  - intros max sd. apply handle_csi_raises. reflexivity.
Qed.

(** ** Splitting at a separator *)

Lemma split_on_no_sep sep l :
  existsb (Byte.eqb sep) l = false -> split_on sep l = [l].
Proof.
  induction l as [|c t IH]; simpl; [reflexivity|].
  intros H. apply orb_false_elim in H as [Hc Ht].
  destruct (Byte.eqb c sep) eqn:E.
  - apply byte_eqb_true in E. subst c. rewrite byte_eqb_refl in Hc. discriminate.
  - rewrite (IH Ht). reflexivity.
Qed.

Lemma split_on_has_sep sep l :
  existsb (Byte.eqb sep) l = true ->
  exists h x r, split_on sep l = h :: x :: r.
Proof.
  induction l as [|c t IH]; simpl; [discriminate|].
  intros H. destruct (Byte.eqb c sep) eqn:E.
  - destruct (split_on sep t) as [|x r] eqn:Hs; [destruct t; simpl in Hs|eauto].
    + discriminate.
    + destruct (Byte.eqb b sep), (split_on sep t); discriminate.
  - assert (Byte.eqb sep c = false) as Hc.
    { destruct (Byte.eqb sep c) eqn:E'; [|reflexivity].
      apply byte_eqb_true in E'. subst c. rewrite byte_eqb_refl in E. discriminate. }
    rewrite Hc in H. simpl in H.
    destruct (IH H) as (h & x & r & ->). eauto.
Qed.

Lemma last_split_on_cons sep c t :
  List.last (split_on sep (c :: t)) [] =
  if existsb (Byte.eqb sep) t then List.last (split_on sep t) []
  else if Byte.eqb c sep then t else c :: t.
Proof.
  destruct (existsb (Byte.eqb sep) t) eqn:H.
  - apply split_on_has_sep in H as (h & x & r & Hs). simpl. rewrite Hs.
    destruct (Byte.eqb c sep); reflexivity.
  - simpl. rewrite (split_on_no_sep _ _ H).
    destruct (Byte.eqb c sep); reflexivity.
Qed.

Lemma up_to_snoc sep a c :
  up_to sep (a ++ [c]) =
  if existsb (Byte.eqb sep) a then up_to sep a
  else a ++ (if Byte.eqb c sep then [] else [c]).
Proof.
  induction a as [|x a IH]; simpl.
  - destruct (Byte.eqb c sep); reflexivity.
  - destruct (Byte.eqb x sep) eqn:E.
    + apply byte_eqb_true in E. subst x. rewrite byte_eqb_refl. reflexivity.
    + assert (Byte.eqb sep x = false) as ->.
      { destruct (Byte.eqb sep x) eqn:E'; [|reflexivity].
        apply byte_eqb_true in E'. subst x. rewrite byte_eqb_refl in E. discriminate. }
      simpl. rewrite IH. destruct (existsb (Byte.eqb sep) a); reflexivity.
Qed.

Lemma existsb_rev_byte (f : byte -> bool) l : existsb f (rev l) = existsb f l.
Proof.
  induction l as [|c t IH]; simpl; [reflexivity|].
  rewrite existsb_app, IH. simpl. rewrite orb_false_r. apply orb_comm.
Qed.

Lemma after_last_cons sep c t :
  after_last sep (c :: t) =
  if existsb (Byte.eqb sep) t then after_last sep t
  else if Byte.eqb c sep then t else c :: t.
Proof.
  unfold after_last. simpl. rewrite up_to_snoc, existsb_rev_byte.
  destruct (existsb (Byte.eqb sep) t); [reflexivity|].
  rewrite rev_app_distr, rev_involutive.
  destruct (Byte.eqb c sep); reflexivity.
Qed.

(** The last piece of the split is the content after the last separator. *)
Lemma last_split_on sep l : List.last (split_on sep l) [] = after_last sep l.
Proof.
  induction l as [|c t IH]; [reflexivity|].
  rewrite last_split_on_cons, after_last_cons, IH. reflexivity.
Qed.

Lemma existsb_eqb_In sep (l : list byte) :
  existsb (Byte.eqb sep) l = false <-> ~ In sep l.
Proof.
  induction l as [|c t IH]; simpl; [split; [intros _ []|reflexivity]|].
  rewrite orb_false_iff, IH. split.
  - intros [Hc Ht] [-> | H]; [|tauto]. rewrite byte_eqb_refl in Hc. discriminate.
  - intros H. split; [|tauto].
    destruct (Byte.eqb sep c) eqn:E; [|reflexivity].
    apply byte_eqb_true in E. exfalso. apply H. left. congruence.
Qed.

Lemma after_last_spec sep l :
  exists pre,
    l = pre ++ after_last sep l /\
    ~ In sep (after_last sep l) /\
    (pre = [] \/ exists p, pre = p ++ [sep]).
Proof.
  induction l as [|c t IH].
  - exists []. simpl. auto.
  - rewrite after_last_cons. destruct (existsb (Byte.eqb sep) t) eqn:H.
    + destruct IH as (pre & E & Hn & Hp). exists (c :: pre).
      split; [simpl; congruence|]. split; [exact Hn|]. right.
      destruct Hp as [-> | [p ->]].
      * simpl in E. rewrite <- E in Hn. apply existsb_eqb_In in Hn. congruence.
      * exists (c :: p). reflexivity.
    + apply existsb_eqb_In in H. destruct (Byte.eqb c sep) eqn:E.
      * apply byte_eqb_true in E. subst c. exists [sep]. split; [reflexivity|].
        split; [exact H|]. right. exists []. reflexivity.
      * exists []. split; [reflexivity|]. split; [|auto].
        intros [-> | Hin]; [|tauto]. rewrite byte_eqb_refl in E. discriminate.
Qed.

(** ** Carriage returns (C8) *)

(** A carriage return stops a match too: nothing the pattern takes in, or
    looks at to decide, lies beyond it. *)
Lemma match_body_app_cr a b :
  match_body (a ++ CR :: b) =
  match match_body a with
  | Some (m, rest) => Some (m, rest ++ CR :: b)
  | None => None
  end.
Proof.
  unfold match_body. destruct a as [|e [|o t]]; simpl.
  - destruct b; reflexivity.
  - destruct (Byte.eqb e ESC); reflexivity.
  - destruct (Byte.eqb e ESC && Byte.eqb o "["); [|reflexivity].
    rewrite (span_params_barrier t (CR :: b) eq_refl).
    destruct (span_params t) as [p r]. simpl.
    destruct r as [|c t2]; simpl; [reflexivity|].
    destruct (is_command c); [|reflexivity].
    destruct t2 as [|x t3]; simpl; [reflexivity|].
    destruct (Byte.eqb x STX); reflexivity.
Qed.

Lemma match_csi_app_cr a b :
  match_csi (a ++ CR :: b) =
  match match_csi a with
  | Some (m, rest) => Some (m, rest ++ CR :: b)
  | None => None
  end.
Proof.
  unfold match_csi. destruct a as [|c t]; [destruct b; reflexivity|].
  simpl. destruct (Byte.eqb c SOH).
  - apply match_body_app_cr.
  - apply (match_body_app_cr (c :: t)).
Qed.

(** The substitution works on each side of a carriage return by itself. *)
Lemma remove_csi_app_cr a b :
  remove_csi (a ++ CR :: b) = remove_csi a ++ CR :: remove_csi b.
Proof.
  induction a as [|c t Hnone IH|c t m rest Hsome IH] using scan_ind.
  - change ([] ++ CR :: b) with (CR :: b). rewrite remove_csi_cons.
    pose proof (match_csi_app_cr [] b) as H. simpl in H. rewrite H. reflexivity.
  - change ((c :: t) ++ CR :: b) with (c :: (t ++ CR :: b)).
    rewrite !remove_csi_cons.
    change (c :: (t ++ CR :: b)) with ((c :: t) ++ CR :: b).
    rewrite match_csi_app_cr, Hnone, IH. reflexivity.
  - change ((c :: t) ++ CR :: b) with (c :: (t ++ CR :: b)).
    rewrite !remove_csi_cons.
    change (c :: (t ++ CR :: b)) with ((c :: t) ++ CR :: b).
    rewrite match_csi_app_cr, Hsome, IH. reflexivity.
Qed.

Lemma remove_csi_In x l : In x (remove_csi l) -> In x l.
Proof.
  induction l as [|c t Hnone IH|c t m rest Hsome IH] using scan_ind.
  - auto.
  - rewrite remove_csi_cons, Hnone. simpl. tauto.
  - rewrite remove_csi_cons, Hsome. intros H.
    apply match_csi_suffix in Hsome as [used ->].
    apply in_or_app. right. auto.
Qed.

Lemma after_last_no_sep sep l : ~ In sep l -> after_last sep l = l.
Proof.
  intros H. induction l as [|c t IH]; [reflexivity|].
  rewrite after_last_cons.
  assert (existsb (Byte.eqb sep) t = false) as ->
      by (apply existsb_eqb_In; intros Hin; apply H; right; exact Hin).
  destruct (Byte.eqb c sep) eqn:E; [|reflexivity].
  apply byte_eqb_true in E. exfalso. apply H. left. exact E.
Qed.

Lemma after_last_app sep a b :
  ~ In sep b -> after_last sep (a ++ sep :: b) = b.
Proof.
  intros H. induction a as [|c t IH]; simpl.
  - rewrite after_last_cons.
    assert (existsb (Byte.eqb sep) b = false) as -> by (apply existsb_eqb_In, H).
    rewrite byte_eqb_refl. reflexivity.
  - rewrite after_last_cons.
    assert (existsb (Byte.eqb sep) (t ++ sep :: b) = true) as ->.
    { rewrite existsb_app. simpl. rewrite byte_eqb_refl.
      rewrite orb_true_r. reflexivity. }
    exact IH.
Qed.

(** Truncating after the substitution is the substitution of the truncated
    line. *)
Lemma after_last_remove_csi line :
  after_last CR (remove_csi line) = remove_csi (after_last CR line).
Proof.
  destruct (after_last_spec CR line) as (cut & E & Hn & [-> | [p ->]]).
  - simpl in E. rewrite <- E. apply after_last_no_sep.
    intros H. apply remove_csi_In in H. rewrite E in H. exact (Hn H).
  - rewrite <- app_assoc in E. simpl in E. rewrite E at 1.
    rewrite remove_csi_app_cr. apply after_last_app.
    intros H. apply remove_csi_In in H. exact (Hn H).
Qed.

(** C8.  Whatever [_handle_csi] returned, suppressed or not, the loop then
    keeps only the content after its last carriage return: the line handed
    to the file is a tail of the handled line, holds no carriage return, and
    what was cut off is empty or ends in a carriage return.  When
    [_handle_csi] raises, so does the filter.  On a line that is not
    suppressed this is the content of the line itself after its last
    carriage return, with the recognised sequences removed.  The line
    A CR B CR C is filtered to C. *)
Theorem carriage_return_truncation :
  (forall max sd line,
     filter_line max sd line =
     match handle_csi max sd line with
     | inl e => inl e
     | inr handled => inr (after_last CR handled)
     end) /\
  (forall handled,
     exists cut,
       handled = cut ++ after_last CR handled /\
       ~ In CR (after_last CR handled) /\
       (cut = [] \/ exists p, cut = p ++ [CR])) /\
  (forall max sd line,
     args_convert max line = true -> ~ suppressed sd line ->
     filter_line max sd line = inr (remove_csi (after_last CR line))) /\
  (forall max sd,
     filter_line max sd (bytes "A" ++ [CR] ++ bytes "B" ++ [CR] ++ bytes "C")
     = inr (bytes "C")).
Proof.
  assert (forall max sd line,
     filter_line max sd line =
     match handle_csi max sd line with
     | inl e => inl e
     | inr handled => inr (after_last CR handled)
     end) as Hf.
  { intros max sd line. unfold filter_line.
    destruct (handle_csi max sd line); [reflexivity|].
    rewrite last_split_on. reflexivity. }
  split; [exact Hf|]. split; [|split].
  - intros handled. apply after_last_spec.
  - intros max sd line Hc Hs. rewrite Hf.
    destruct (handle_csi_policy max sd line Hc) as [_ H]. rewrite (H Hs).
    rewrite after_last_remove_csi. reflexivity.
  - intros max sd. reflexivity.
Qed.

Lemma carriage_return_truncation_witness :
  filter_line 4300 false
    (bytes " 10%" ++ [CR] ++ bytes " 20%" ++ [ESC] ++ bytes "[A" ++ [LF])
  = inr (bytes " 20%" ++ [LF]).
Proof.
  destruct carriage_return_truncation as (_ & _ & H & _).
  rewrite H.
  - reflexivity.
  - reflexivity.
  - intros (_ & Hn & _). apply Hn. apply bytes_in_spec. reflexivity.
Defined.

(** ** A second pass of the filter (C7) *)

Lemma finditer_nil_remove l : finditer l = [] -> remove_csi l = l.
Proof.
  induction l as [|c t Hnone IH|c t m rest Hsome IH] using scan_ind.
  - reflexivity.
  - rewrite finditer_cons, remove_csi_cons, Hnone. intros H. rewrite (IH H).
    reflexivity.
  - rewrite finditer_cons, Hsome. discriminate.
Qed.

(** The scan finds nothing exactly when no recognised sequence begins
    anywhere in the line. *)
Lemma finditer_nil_iff l : finditer l = [] <-> ~ contains_csi l.
Proof.
  induction l as [|c t Hnone IH|c t m rest Hsome IH] using scan_ind.
  - split; [|reflexivity]. intros _ (pre & suf & m & r & E & H).
    destruct pre, suf; try discriminate.
  - rewrite finditer_cons, Hnone, IH. split.
    + intros Hn (pre & suf & m & r & E & H). destruct pre as [|c' pre].
      * simpl in E. subst suf. congruence.
      * injection E as -> ->. apply Hn. exists pre, suf, m, r. auto.
    + intros Hn (pre & suf & m & r & -> & H). apply Hn.
      exists (c :: pre), suf, m, r. auto.
  - rewrite finditer_cons, Hsome. split; [discriminate|].
    intros Hn. exfalso. apply Hn. exists [], (c :: t), m, rest. auto.
Qed.

(** C7, as amended.  A filtered line in which the scan finds no recognised
    sequence is left as it is by a second pass. *)
Theorem filter_line_idempotent_when_clean max sd l m :
  filter_line max sd l = inr m ->
  finditer m = [] ->
  filter_line max sd m = inr m.
Proof.
  intros Hl Hm.
  assert (~ In CR m) as Hcr.
  { unfold filter_line in Hl. destruct (handle_csi max sd l) as [|h]; [discriminate|].
    injection Hl as <-. rewrite last_split_on.
    destruct (after_last_spec CR h) as (_ & _ & H & _). exact H. }
  unfold filter_line, handle_csi. rewrite Hm. simpl.
  rewrite (finditer_nil_remove _ Hm).
  rewrite split_on_no_sep; [reflexivity|]. apply existsb_eqb_In, Hcr.
Qed.

Lemma filter_line_idempotent_when_clean_witness :
  filter_line 4300 false (bytes "12%" ++ [CR] ++ bytes "13%" ++ [ESC] ++ bytes "[B")
  = inr (bytes "13%") /\
  filter_line 4300 false (bytes "13%") = inr (bytes "13%").
Proof.
  split; [reflexivity|].
  apply (filter_line_idempotent_when_clean 4300 false
           (bytes "12%" ++ [CR] ++ bytes "13%" ++ [ESC] ++ bytes "[B"));
    reflexivity.
Defined.

(** C7 as stated fails: removing the sequence in the middle of
    ESC ESC [ B [ B joins what stood around it into a new ESC [ B, which only
    a second pass removes. *)
Lemma filter_line_not_idempotent :
  filter_line 4300 false ([ESC; ESC] ++ bytes "[B[B") = inr (ESC :: bytes "[B") /\
  filter_line 4300 false (ESC :: bytes "[B") = inr [] /\
  filter_line 4300 false (ESC :: bytes "[B")
  <> filter_line 4300 false ([ESC; ESC] ++ bytes "[B[B").
Proof. repeat split; try reflexivity. discriminate. Qed.

(** ** What each call touches *)

Lemma same_core_refl w : same_core w w.
Proof. repeat split. Qed.

Lemma same_core_trans w1 w2 w3 :
  same_core w1 w2 -> same_core w2 w3 -> same_core w1 w3.
Proof.
  unfold same_core. intros (? & ? & ? & ?) (? & ? & ? & ?).
  repeat split; congruence.
Qed.

Lemma stream_write_core s data w : same_core w (fst (stream_write s data w)).
Proof. destruct data; repeat split. Qed.

Lemma new_write_core s data w :
  same_core w (fst (match s with
                    | Stdout => new_out_write data
                    | Stderr => new_err_write data
                    end w)).
Proof.
  assert (forall s', same_core w (fst (bind (call_old s' data)
                                        (fun _ => fan_out (encode data)) w))) as H.
  { intros s'. unfold bind, call_old.
    destruct (old_write_of s' (patches w)) as [[|]|]; simpl; try apply same_core_refl.
    destruct data; simpl; repeat split. }
  destruct s; apply H.
Qed.

Lemma sys_write_core s data w : same_core w (fst (sys_write s data w)).
Proof.
  unfold sys_write, call_write.
  destruct (sys_write_of s (patches w)) as [[|]|].
  - apply stream_write_core.
  - apply new_write_core.
  - apply same_core_refl.
Qed.

Lemma LOGGER_info_core msg w : same_core w (fst (LOGGER_info msg w)).
Proof.
  unfold LOGGER_info. destruct (LOGGER_stream (config w)) as [s|];
    [|apply same_core_refl].
  pose proof (sys_write_core s (PyStr (LOGGER_format (config w) msg)) w) as H.
  destruct (sys_write s _ w) as [w' [[]|[]]]; exact H.
Qed.

Lemma store_buffered_logs_core i w :
  same_core w (fst (_store_buffered_logs i w)).
Proof.
  unfold _store_buffered_logs.
  destruct (monitors w !! i) as [m|]; [|apply same_core_refl].
  destruct (buffers w !! _io_buffer m) as [b|]; [|apply same_core_refl].
  destruct (BytesIO_tell b =? 0)%nat; [apply same_core_refl|].
  destruct (BytesIO_read _ _) as [data b1].
  destruct (write_lines _ _ _ _) as [written [e|[]]]; repeat split.
Qed.

(** ** Flushing an empty buffer (C9) *)

(** C9.  A flush that finds the buffer position at zero returns at once: the
    world it leaves is the world it found, so no file was opened or written
    and nothing was uploaded. *)
Theorem flush_empty_buffer_noop i w m b :
  monitors w !! i = Some m ->
  buffers w !! _io_buffer m = Some b ->
  BytesIO_tell b = 0%nat ->
  _store_buffered_logs i w = (w, inr tt).
Proof.
  intros Hm Hb Hz. unfold _store_buffered_logs. rewrite Hm, Hb, Hz. reflexivity.
Qed.

(** ** The patch state and the registry along a run *)










Lemma flush_empty_buffer_noop_witness :
  let w := run [New "plots" "run" 30; Start 0; Write Stdout (PyStr "step 1"); Collect 0]
               (init_world example_config ∅) in
  files w !! "plots/terminal_log.txt"%string <> None /\
  _store_buffered_logs 0 w = (w, inr tt).
Proof.
  intros w. split; [vm_compute; discriminate|].
  eapply (flush_empty_buffer_noop 0 w).
  - vm_compute. reflexivity.
  - vm_compute. reflexivity.
  - reflexivity.
Defined.


(** ** The registry invariant (C1) *)



(** ** Where the install guard lives (C4) *)




(** ** Repeated start and finish (C2) *)

(** A second [start] changes nothing. *)
Lemma start_started_noop i w m :
  monitors w !! i = Some m -> _started m = true -> start i w = (w, inr tt).
Proof. intros Hm Hs. unfold start. rewrite Hm, Hs. reflexivity. Qed.

(** [finish] on a monitor that was never started changes nothing. *)
Lemma finish_unstarted_noop i status w m :
  monitors w !! i = Some m -> _started m = false ->
  finish i status w = (w, inr tt).
Proof. intros Hm Hs. unfold finish. rewrite Hm, Hs. reflexivity. Qed.

(** A [finish] that returns has taken the monitor out of the registry and
    left it marked as started. *)
Lemma finish_returns_unregistered i status w w' m :
  monitors w !! i = Some m -> _started m = true ->
  finish i status w = (w', inr tt) ->
  _buffer_registry w' !! i = None /\
  exists m', monitors w' !! i = Some m' /\ _started m' = true.
Proof.
  intros Hm Hs. unfold finish. rewrite Hm, Hs. simpl. unfold bind.
  set (msg := (_ +:+ _)%string).
  pose proof (LOGGER_info_core msg w) as (_ & _ & M1 & _).
  destruct (LOGGER_info msg w) as [w1 [e|[]]]; simpl in M1; [discriminate|].
  unfold update_monitor, modify.
  set (w2 := with_monitors _ w1).
  assert (monitors w2 !! i = Some (set_shutdown true m)) as M2.
  { subst w2. simpl. rewrite lookup_alter_eq, M1, Hm. reflexivity. }
  pose proof (store_buffered_logs_core i w2) as (_ & _ & M3 & _).
  destruct (_store_buffered_logs i w2) as [w3 [e|[]]]; simpl in M3; [discriminate|].
  unfold registry_del.
  destruct (_buffer_registry w3 !! i) as [a|]; [|discriminate].
  set (w4 := with_registry _ w3).
  assert (_buffer_registry w4 !! i = None) as R4
      by (subst w4; simpl; apply lookup_delete_eq).
  assert (monitors w4 !! i = Some (set_shutdown true m)) as M4
      by (subst w4; simpl; rewrite M3; exact M2).
  destruct (registry_is_empty w4); intros [= <-]; simpl;
    (split; [exact R4 | exists (set_shutdown true m); split; [exact M4 | exact Hs]]).
Qed.

(** [finish] on a started monitor that is not in the registry raises: if
    nothing else does, the [del] of line 199 does. *)
Lemma finish_unregistered_raises i status w m :
  monitors w !! i = Some m -> _started m = true ->
  _buffer_registry w !! i = None ->
  exists e, snd (finish i status w) = inl e.
Proof.
  intros Hm Hs Hr. unfold finish. rewrite Hm, Hs. simpl. unfold bind.
  set (msg := (_ +:+ _)%string).
  pose proof (LOGGER_info_core msg w) as (_ & R1 & _).
  destruct (LOGGER_info msg w) as [w1 [e|[]]]; simpl in R1; [eauto|].
  unfold update_monitor, modify.
  set (w2 := with_monitors _ w1).
  pose proof (store_buffered_logs_core i w2) as (_ & R3 & _).
  destruct (_store_buffered_logs i w2) as [w3 [e|[]]]; simpl in R3; [eauto|].
  unfold registry_del. rewrite R3. subst w2. simpl. rewrite R1, Hr. simpl. eauto.
Qed.

(** So no second [finish] returns, whatever the process is configured with
    and whatever the buffers hold. *)
Lemma finish_twice_raises i status status' w w' m :
  monitors w !! i = Some m -> _started m = true ->
  finish i status w = (w', inr tt) ->
  exists e, snd (finish i status' w') = inl e.
Proof.
  intros Hm Hs Hf.
  destruct (finish_returns_unregistered _ _ _ _ _ Hm Hs Hf) as (Hr & m' & Hm' & Hs').
  exact (finish_unregistered_raises _ _ _ _ Hm' Hs' Hr).
Qed.

(** C2, at the input on which the code departs from it.  A monitor is
    created, started and finished; the first [finish] returns.  [_started]
    is still set, so a second [finish] passes the guard, logs again, finds
    the buffer empty, and raises [KeyError] on
    [del self._buffer_registry[id(self)]]. *)
Theorem second_finish_raises :
  let w1 := run [New "plots" "run" 30; Start 0] (init_world example_config ∅) in
  let w2 := fst (finish 0 "success" w1) in
  snd (finish 0 "success" w1) = inr tt /\
  snd (finish 0 "success" w2) = inl KeyError /\
  terminal_err (fst (finish 0 "success" w2)) <> terminal_err w2.
Proof.
  repeat split.
  vm_compute. intros H. discriminate H.
Qed.

(** ** When the collector stops (C5) *)

Lemma sets_shutdown_before i T t0 t1 w :
  (t1 < T)%Q -> sets_shutdown_at i T t0 t1 w = w.
Proof.
  intros H. unfold sets_shutdown_at.
  destruct (Qle_bool T t1) eqn:E; [|rewrite andb_false_r; reflexivity].
  apply Qle_bool_iff in E. exfalso. apply (Qlt_not_le _ _ H E).
Qed.

Lemma sets_shutdown_during i T t0 t1 w :
  (t0 < T)%Q -> (T <= t1)%Q ->
  sets_shutdown_at i T t0 t1 w =
  with_monitors (alter (set_shutdown true) i (monitors w)) w.
Proof.
  intros H0 H1. unfold sets_shutdown_at.
  assert (Qle_bool T t0 = false) as ->.
  { destruct (Qle_bool T t0) eqn:E; [|reflexivity].
    apply Qle_bool_iff in E. exfalso. apply (Qlt_not_le _ _ H0 E). }
  assert (Qle_bool T t1 = true) as -> by (apply Qle_bool_iff, H1).
  reflexivity.
Qed.

(** Once the flag is up, the next test at the head of the loop leaves. *)
Lemma log_collector_sees_flag fuel others i clock counter w m :
  monitors w !! i = Some m -> _shutdown m = true ->
  _log_collector (S fuel) others i clock counter w = (w, Exited clock).
Proof. intros Hm Hs. simpl. rewrite Hm, Hs. reflexivity. Qed.

Lemma log_collector_S fuel others i clock counter w :
  _log_collector (S fuel) others i clock counter w =
  match monitors w !! i with
  | None => (w, Exited clock)
  | Some m =>
      if _shutdown m then (w, Exited clock)
      else if Qle_bool 0 (_log_time_interval m) then
        let clock' := (clock + _log_time_interval m)%Q in
        let w1 := others clock clock' w in
        let counter' := (counter + _log_time_interval m)%Q in
        if negb (Qle_bool counter' (_log_capture_interval m)) then
          match _store_buffered_logs i w1 with
          | (w2, inl e) => (w2, Died clock' e)
          | (w2, inr _) => _log_collector fuel others i clock' 0 w2
          end
        else _log_collector fuel others i clock' counter' w1
      else (w, Died clock ValueError)
  end.
Proof. reflexivity. Qed.

Lemma log_collector_ends i T m n :
  (0 < _log_time_interval m)%Q -> _shutdown m = false ->
  forall w clock counter,
    monitors w !! i = Some m ->
    (clock < T)%Q ->
    (T <= clock + inject_Z (Z.of_nat n) * _log_time_interval m)%Q ->
    exists w' e te,
      _log_collector (S n) (sets_shutdown_at i T) i clock counter w = (w', e) /\
      ended_at e te /\ (te < T + _log_time_interval m)%Q.
Proof.
  intros Hd Hs. induction n as [|n IH]; intros w clock counter Hm Hlt Hle.
  - exfalso. change (inject_Z (Z.of_nat 0)) with 0%Q in Hle. lra.
  - assert (Qle_bool 0 (_log_time_interval m) = true) as Hpos
        by (apply Qle_bool_iff; lra).
    rewrite log_collector_S, Hm, Hs, Hpos. cbv zeta.
    set (clock' := (clock + _log_time_interval m)%Q).
    assert (T <= clock' + inject_Z (Z.of_nat n) * _log_time_interval m)%Q as Hle'.
    { subst clock'. rewrite Nat2Z.inj_succ in Hle. unfold Z.succ in Hle.
      rewrite inject_Z_plus in Hle. change (inject_Z 1) with 1%Q in Hle. lra. }
    destruct (Qlt_le_dec clock' T) as [Hbefore | Hduring].
    + (* the flag is not up yet when this sleep ends *)
      rewrite (sets_shutdown_before _ _ _ _ _ Hbefore).
      destruct (negb (Qle_bool _ _)).
      * pose proof (store_buffered_logs_core i w) as (_ & _ & Hmon & _).
        destruct (_store_buffered_logs i w) as [w2 [x|[]]]; simpl in Hmon.
        -- exists w2, (Died clock' x), clock'. split; [reflexivity|].
           split; [right; eauto | lra].
        -- apply IH; [rewrite Hmon; exact Hm | exact Hbefore | exact Hle'].
      * apply IH; [exact Hm | exact Hbefore | exact Hle'].
    + (* the flag goes up during this sleep *)
      rewrite (sets_shutdown_during _ _ _ _ _ Hlt Hduring).
      set (w1 := with_monitors _ w).
      assert (monitors w1 !! i = Some (set_shutdown true m)) as Hm1.
      { subst w1. simpl. rewrite lookup_alter_eq, Hm. reflexivity. }
      assert (clock' < T + _log_time_interval m)%Q as Hbound
          by (subst clock'; lra).
      destruct (negb (Qle_bool _ _)).
      * pose proof (store_buffered_logs_core i w1) as (_ & _ & Hmon & _).
        destruct (_store_buffered_logs i w1) as [w2 [x|[]]]; simpl in Hmon.
        -- exists w2, (Died clock' x), clock'. split; [reflexivity|].
           split; [right; eauto | exact Hbound].
        -- rewrite (log_collector_sees_flag _ _ _ _ _ _ (set_shutdown true m));
             [|rewrite Hmon; exact Hm1|reflexivity].
           exists w2, (Exited clock'), clock'. split; [reflexivity|].
           split; [left; reflexivity | exact Hbound].
      * rewrite (log_collector_sees_flag _ _ _ _ _ _ (set_shutdown true m));
          [|exact Hm1|reflexivity].
        exists w1, (Exited clock'), clock'. split; [reflexivity|].
        split; [left; reflexivity | exact Hbound].
Qed.

(** C5, as amended.  The thread tests the flag once per sleep, and the sleep
    lasts [_log_time_interval].  If the owner sets the flag at time [T] while
    the thread is looping, the thread is over before [T] plus one
    [_log_time_interval] (30 seconds unless configured otherwise) of its own
    time: at the end of the sleep then in progress, after the flush that
    follows it. *)
Theorem collector_stops_within_one_sleep i T w m clock counter :
  monitors w !! i = Some m ->
  _shutdown m = false ->
  (0 < _log_time_interval m)%Q ->
  (clock < T)%Q ->
  exists fuel w' e te,
    _log_collector fuel (sets_shutdown_at i T) i clock counter w = (w', e) /\
    ended_at e te /\ (te < T + _log_time_interval m)%Q.
Proof.
  intros Hm Hs Hd Hlt.
  destruct (Qarchimedean ((T - clock) / _log_time_interval m)) as [p Hp].
  assert (T <= clock + inject_Z (Z.of_nat (Pos.to_nat p)) * _log_time_interval m)%Q
    as Hle.
  { rewrite positive_nat_Z.
    assert ((T - clock) / _log_time_interval m * _log_time_interval m
            < inject_Z (Z.pos p) * _log_time_interval m)%Q as H.
    { apply Qmult_lt_compat_r; [exact Hd | exact Hp]. }
    assert ((T - clock) / _log_time_interval m * _log_time_interval m
            == T - clock)%Q as H0 by (field; lra).
    rewrite H0 in H. lra. }
  destruct (log_collector_ends i T m (Pos.to_nat p) Hd Hs w clock counter Hm Hlt Hle)
    as (w' & e & te & H).
  exists (S (Pos.to_nat p)), w', e, te. exact H.
Qed.

Lemma collector_stops_within_one_sleep_witness :
  exists fuel w' e te,
    _log_collector fuel (sets_shutdown_at 0 1) 0 0 0
      (run [New "plots" "run" 30; Start 0] (init_world example_config ∅))
    = (w', e) /\
    ended_at e te /\ (te < 1 + 30)%Q.
Proof.
  apply (collector_stops_within_one_sleep 0 1
           (run [New "plots" "run" 30; Start 0] (init_world example_config ∅))
           {| run_id := "run"; _log_capture_interval := 1;
              _log_time_interval := 30; _io_buffer := 0;
              _shutdown := false; _started := true;
              artifact_save_dir := "plots";
              file_save_path := "plots/terminal_log.txt" |} 0 0).
  - vm_compute. reflexivity.
  - reflexivity.
  - reflexivity.
  - reflexivity.
Defined.

(** C5 as stated fails.  A monitor made with the defaults sleeps 30 seconds
    at a time.  With the flag set one second into the first sleep, the
    thread is still looping when that sleep ends at 30, and leaves at 30:
    that is 29 seconds after the flag went up, not within the capture
    interval of 1. *)
Lemma collector_exit_not_within_capture_interval :
  let w := run [New "plots" "run" 30; Start 0] (init_world example_config ∅) in
  (exists counter,
     snd (_log_collector 1 (sets_shutdown_at 0 1) 0 0 0 w) = Running 30 counter) /\
  snd (_log_collector 2 (sets_shutdown_at 0 1) 0 0 0 w) = Exited 30 /\
  ~ (30 - 1 <= 1)%Q.
Proof.
  split; [|split].
  - eexists. vm_compute. reflexivity.
  - vm_compute. reflexivity.
  - intros H. apply Qle_bool_iff in H. discriminate H.
Qed.

(** ** The health check (C6) *)

Lemma string_length_append (a b : string) :
  String.length (a +:+ b) = (String.length a + String.length b)%nat.
Proof. induction a as [|c a IH]; simpl; [reflexivity|]. rewrite IH. reflexivity. Qed.

Lemma append_hint_differs (a : string) : (a +:+ authentication_hint)%string <> a.
Proof.
  intros H. apply (f_equal String.length) in H.
  rewrite string_length_append in H. simpl in H. lia.
Qed.

Lemma no_token_spec (token : option string) :
  no_token token = true <-> (token = None \/ token = Some EmptyString).
Proof.
  destruct token as [t|]; simpl.
  - rewrite String.eqb_eq. split; [intros ->; auto | intros [H|[= ->]]; congruence].
  - split; auto.
Qed.

(** C6.  [health_check] asks for the health page of the tracking server with
    a bearer header made from the token variable and a timeout of 60
    seconds.  If the server answers, the call returns exactly when the body
    is OK; any other body raises a [ConnectionError] whose message names the
    server, followed by the authentication hint exactly when the token
    variable is unset or empty. *)
Theorem health_check_outcome env requests_get tracking_uri :
  let token := env !! "MLFLOW_TRACKING_TOKEN" in
  let base := ("Could not connect to MLflow server at " +:+ tracking_uri +:+ ". ")%string in
  fst (health_check env requests_get tracking_uri) =
    {| url := tracking_uri +:+ "/health";
       headers := [("Authorization"%string, "Bearer " +:+ format_optional token)];
       timeout := 60 |} /\
  forall response,
    requests_get (fst (health_check env requests_get tracking_uri)) = inr response ->
    (snd (health_check env requests_get tracking_uri) = inr tt <->
     text response = "OK"%string) /\
    (text response <> "OK"%string ->
     exists msg,
       snd (health_check env requests_get tracking_uri) = inl (ConnectionError msg) /\
       (msg = base \/ msg = (base +:+ authentication_hint)%string) /\
       (msg = (base +:+ authentication_hint)%string <->
        (token = None \/ token = Some EmptyString))).
Proof.
  intros token base. split; [reflexivity|].
  intros response Hget. unfold health_check in *. cbn [fst snd] in *.
  rewrite Hget. fold token.
  destruct (String.eqb (text response) "OK") eqn:E.
  - apply String.eqb_eq in E. split; [tauto|congruence].
  - apply String.eqb_neq in E. split; [split; [discriminate|congruence]|].
    intros _. fold base.
    destruct (no_token token) eqn:Hn.
    + exists (base +:+ authentication_hint)%string. split; [reflexivity|].
      split; [auto|]. split; [intros _; apply no_token_spec, Hn | reflexivity].
    + exists base. split; [reflexivity|]. split; [auto|]. split.
      * intros H. symmetry in H. exfalso. exact (append_hint_differs _ H).
      * intros H. apply no_token_spec in H. congruence.
Qed.

Lemma health_check_outcome_witness :
  snd (health_check {[ "MLFLOW_TRACKING_TOKEN"%string := "secret"%string ]}
         (always_answers "Forbidden") "https://mlflow.example")
  = inl (ConnectionError "Could not connect to MLflow server at https://mlflow.example. ")
  /\
  snd (health_check ∅ (always_answers "OK") "https://mlflow.example") = inr tt.
Proof.
  split.
  - destruct (health_check_outcome
                {[ "MLFLOW_TRACKING_TOKEN"%string := "secret"%string ]}
                (always_answers "Forbidden") "https://mlflow.example")
      as [_ H].
    destruct (H {| text := "Forbidden" |} eq_refl) as [_ H'].
    destruct (H' ltac:(discriminate)) as (msg & Hmsg & _).
    vm_compute. reflexivity.
  - destruct (health_check_outcome ∅ (always_answers "OK") "https://mlflow.example")
      as [_ H].
    apply (H {| text := "OK" |} eq_refl). reflexivity.
Defined.

(** ** Batches of hyper-parameters (C10) *)

Section HyperparamsFacts.
Context {V : Type}.

Lemma fold_dict_del (keys : list string) (ps : list (string * V)) :
  fold_left (fun ps k => dict_del k ps) keys ps =
  List.filter (fun kv => negb (existsb (String.eqb (fst kv)) keys)) ps.
Proof.
  revert ps. induction keys as [|k keys IH]; intros ps; simpl.
  - induction ps as [|kv ps IHps]; simpl; [reflexivity|]. rewrite <- IHps.
    reflexivity.
  - rewrite IH. unfold dict_del. induction ps as [|kv ps IHps]; simpl; [reflexivity|].
    destruct (String.eqb (fst kv) k); simpl.
    + exact IHps.
    + destruct (existsb _ keys); simpl; [exact IHps | rewrite IHps; reflexivity].
Qed.

(** [_clean_params] keeps, in order, the items whose key starts with none
    of the prefixes. *)
Lemma clean_params_filter (ps : list (string * V)) :
  _clean_params ps = List.filter (fun kv => negb (to_remove (fst kv))) ps.
Proof.
  unfold _clean_params. rewrite fold_dict_del.
  apply filter_ext_in. intros kv Hin. f_equal.
  destruct (to_remove (fst kv)) eqn:E.
  - apply existsb_exists. exists (fst kv). split; [|apply String.eqb_refl].
    apply filter_In. split; [apply in_map, Hin | exact E].
  - destruct (existsb _ _) eqn:E'; [|reflexivity].
    apply existsb_exists in E' as (k & Hk & Heq).
    apply String.eqb_eq in Heq. subst k.
    apply filter_In in Hk as [_ Hk]. congruence.
Qed.
End HyperparamsFacts.












(** * Further properties *)

(** ** The buffer *)

Lemma BytesIO_write_prefix d b :
  (position b <= length (contents b))%nat ->
  (position (BytesIO_write d b) <= length (contents (BytesIO_write d b)))%nat /\
  take (position (BytesIO_write d b)) (contents (BytesIO_write d b)) =
  take (position b) (contents b) ++ d.
Proof.
  intros H. unfold BytesIO_write. destruct d as [|c d].
  - rewrite app_nil_r. auto.
  - cbn [position contents].
    replace (position b - length (contents b))%nat with 0%nat by lia.
    cbn [repeat]. rewrite app_nil_r.
    set (d' := c :: d).
    assert (length (take (position b) (contents b)) = position b) as Hl
        by (rewrite length_take; lia).
    split.
    + rewrite !length_app, Hl. lia.
    + rewrite app_assoc. rewrite take_app_le by (rewrite length_app, Hl; lia).
      apply take_ge. rewrite length_app, Hl. lia.
Qed.

Lemma BytesIO_writes_prefix ds b :
  (position b <= length (contents b))%nat ->
  (position (BytesIO_writes ds b) <= length (contents (BytesIO_writes ds b)))%nat /\
  take (position (BytesIO_writes ds b)) (contents (BytesIO_writes ds b)) =
  take (position b) (contents b) ++ concat ds.
Proof.
  revert b. induction ds as [|d ds IH]; intros b H; simpl.
  - rewrite app_nil_r. auto.
  - destruct (BytesIO_write_prefix d b H) as [H1 H2].
    destruct (IH _ H1) as [H3 H4]. split; [exact H3|].
    unfold BytesIO_writes in *. rewrite H4, H2, <- app_assoc. reflexivity.
Qed.

(** X1.  The buffer is reused without being truncated: a flush only moves
    the position back to zero and leaves the old bytes in place.  Whatever
    those stale bytes are, the next flush reads back exactly what was
    written since, in order. *)
Theorem buffer_reuse_reads_what_was_written stale ds :
  let b := BytesIO_writes ds {| contents := stale; position := 0 |} in
  fst (BytesIO_read (BytesIO_tell b) (BytesIO_seek 0 b)) = concat ds /\
  BytesIO_tell b = length (concat ds).
Proof.
  intros b.
  destruct (BytesIO_writes_prefix ds {| contents := stale; position := 0 |})
    as [H1 H2]; [simpl; lia|].
  fold b in H1, H2. simpl in H2.
  assert (fst (BytesIO_read (BytesIO_tell b) (BytesIO_seek 0 b)) = concat ds) as E.
  { unfold BytesIO_read, BytesIO_tell, BytesIO_seek. simpl. rewrite drop_0. exact H2. }
  split; [exact E|].
  unfold BytesIO_tell. rewrite <- H2, length_take. lia.
Qed.

(** ** The lines of a flush *)

Lemma split_on_concat sep l :
  concat (split_on sep l) = List.filter (fun c => negb (Byte.eqb c sep)) l.
Proof.
  induction l as [|c t IH]; [reflexivity|]. simpl.
  destruct (Byte.eqb c sep); simpl; [exact IH|].
  destruct (split_on sep t) as [|h r]; simpl in *; congruence.
Qed.




(** ** Plain text goes through the filter untouched *)

Lemma match_csi_needs_esc l m rest : match_csi l = Some (m, rest) -> In ESC l.
Proof.
  intros H. apply match_csi_spec in H as [H | (l' & -> & H)];
    apply match_body_spec in H as (stx & -> & _); simpl; auto.
Qed.

Lemma finditer_no_esc l : ~ In ESC l -> finditer l = [].
Proof.
  induction l as [|c t IH]; intros H; [reflexivity|].
  rewrite finditer_cons.
  destruct (match_csi (c :: t)) as [[m rest]|] eqn:E.
  - exfalso. exact (H (match_csi_needs_esc _ _ _ E)).
  - apply IH. intros Hin. apply H. right. exact Hin.
Qed.

Lemma filter_line_no_esc max sd line :
  ~ In ESC line -> filter_line max sd line = inr (after_last CR line).
Proof.
  intros H. pose proof (finditer_no_esc _ H) as Hf.
  unfold filter_line, handle_csi. rewrite Hf. simpl.
  rewrite (finditer_nil_remove _ Hf), last_split_on. reflexivity.
Qed.

(** X3.  A line that holds no escape byte is never dropped and never makes
    the filter raise: it comes out as its own content after its last
    carriage return, and unchanged when it has none, whatever the shutdown
    flag and the digit limit. *)
Theorem filter_line_without_escape max sd line :
  ~ In ESC line ->
  filter_line max sd line = inr (after_last CR line) /\
  (~ In CR line -> filter_line max sd line = inr line).
Proof.
  intros H. pose proof (filter_line_no_esc max sd line H) as E.
  split; [exact E|]. intros Hcr. rewrite E, after_last_no_sep by exact Hcr.
  reflexivity.
Qed.

Lemma filter_line_without_escape_witness :
  filter_line 4300 false (bytes "epoch 3: loss 0.12" ++ [LF])
  = inr (bytes "epoch 3: loss 0.12" ++ [LF]).
Proof.
  apply (filter_line_without_escape 4300 false
           (bytes "epoch 3: loss 0.12" ++ [LF])).
  - vm_compute. intros H.
    repeat (destruct H as [H|H]; [discriminate H|]). exact H.
  - vm_compute. intros H.
    repeat (destruct H as [H|H]; [discriminate H|]). exact H.
Defined.

(** ** Decoding *)

Lemma utf8_valid_ascii l :
  forallb (in_range 0 127) l = true -> utf8_valid l = true.
Proof.
  induction l as [|c t IH]; [reflexivity|]. simpl.
  intros H. apply andb_prop in H as [Hc Ht]. rewrite Hc. exact (IH Ht).
Qed.

(** Decoding gives back a text whose encoding is the bytes decoded, and no
    ASCII byte string fails to decode. *)
Lemma decode_spec l :
  (forall t, decode l = inr t -> bytes t = l) /\
  (forallb (in_range 0 127) l = true -> decode l = inr (string_of_list_byte l)).
Proof.
  unfold decode, bytes. split.
  - destruct (utf8_valid l); [|discriminate]. intros t [= <-].
    apply list_byte_of_string_of_list_byte.
  - intros H. rewrite (utf8_valid_ascii _ H). reflexivity.
Qed.

(** ** What a flush writes *)

Lemma store_on_empty i w m b :
  monitors w !! i = Some m ->
  buffers w !! _io_buffer m = Some b ->
  BytesIO_tell b = 0%nat ->
  _store_buffered_logs i w = (w, inr tt).
Proof.
  intros Hm Hb Hz. unfold _store_buffered_logs. rewrite Hm, Hb, Hz. reflexivity.
Qed.

Lemma store_resets_buffer i w m b :
  monitors w !! i = Some m ->
  buffers w !! _io_buffer m = Some b ->
  buffers (fst (_store_buffered_logs i w)) !! _io_buffer m
  = Some (BytesIO_seek 0 b).
Proof.
  intros Hm Hb. unfold _store_buffered_logs. rewrite Hm, Hb.
  destruct (BytesIO_tell b =? 0)%nat eqn:Hz.
  - apply Nat.eqb_eq in Hz. simpl. rewrite Hb. destruct b as [c p].
    unfold BytesIO_tell in Hz. simpl in Hz. subst p. reflexivity.
  - unfold BytesIO_read, BytesIO_seek. cbn [contents position].
    destruct (write_lines _ _ _ _) as [written [e|[]]]; simpl;
      apply lookup_insert_eq.
Qed.

Lemma write_lines_outcome max sd lines written :
  exists outs,
    fst (write_lines max sd lines written) = written ++ concat outs /\
    Forall2 (fun line out => filter_line max sd line = inr out /\
                             utf8_valid out = true)
            (take (length outs) lines) outs /\
    (snd (write_lines max sd lines written) = inr tt ->
       length outs = length lines) /\
    (forall e, snd (write_lines max sd lines written) = inl e ->
       exists line, lines !! length outs = Some line /\
         (filter_line max sd line = inl e \/
          exists out, filter_line max sd line = inr out /\
                      utf8_valid out = false /\ e = UnicodeDecodeError)).
Proof.
  revert written. induction lines as [|line lines IH]; intros written; simpl.
  - exists []. rewrite app_nil_r. repeat split; auto; discriminate.
  - destruct (filter_line max sd line) as [e|out] eqn:Hf.
    + exists []. simpl. rewrite app_nil_r. repeat split; auto; try discriminate.
      intros e' [= <-]. exists line. auto.
    + unfold decode. destruct (utf8_valid out) eqn:Hu.
      * destruct (IH (written ++ list_byte_of_string (string_of_list_byte out)))
          as (outs & H1 & H2 & H3 & H4).
        exists (out :: outs).
        split; [rewrite H1, list_byte_of_string_of_list_byte, <- app_assoc;
                reflexivity|].
        split; [constructor; auto|].
        split; [intros H; simpl; f_equal; auto|].
        exact H4.
      * exists []. simpl. rewrite app_nil_r. repeat split; auto; try discriminate.
        intros e' [= <-]. exists line. split; [reflexivity|]. right. exists out. auto.
Qed.

Lemma store_outcome i w m b :
  monitors w !! i = Some m ->
  buffers w !! _io_buffer m = Some b ->
  BytesIO_tell b <> 0%nat ->
  let lines := buffered_lines (take (position b) (contents b)) in
  let w' := fst (_store_buffered_logs i w) in
  let r := snd (_store_buffered_logs i w) in
  exists outs,
    files w' !! file_save_path m =
      Some (default [] (files w !! file_save_path m) ++ concat outs) /\
    Forall2 (fun line out =>
               filter_line (int_max_str_digits (config w)) (_shutdown m) line
               = inr out /\ utf8_valid out = true)
            (take (length outs) lines) outs /\
    buffers w' !! _io_buffer m = Some (BytesIO_seek 0 b) /\
    (r = inr tt ->
       length outs = length lines /\
       artifact_log w' = artifact_log w ++ [(run_id m, file_save_path m)]) /\
    (forall e, r = inl e ->
       (length outs < length lines)%nat /\ artifact_log w' = artifact_log w).
Proof.
  intros Hm Hb Hz lines w' r. subst w' r. unfold _store_buffered_logs.
  rewrite Hm, Hb. apply Nat.eqb_neq in Hz. rewrite Hz.
  unfold BytesIO_read, BytesIO_seek, BytesIO_tell. cbn [contents position].
  rewrite drop_0. fold (buffered_lines (take (position b) (contents b))).
  fold lines.
  destruct (write_lines_outcome (int_max_str_digits (config w)) (_shutdown m)
              lines []) as (outs & H1 & H2 & H3 & H4).
  destruct (write_lines _ _ lines []) as [written [e|[]]]; simpl in *;
    subst written; exists outs.
  - split; [apply lookup_insert_eq|]. split; [exact H2|].
    split; [apply lookup_insert_eq|]. split; [discriminate|].
    intros e' [= <-]. split; [|reflexivity].
    destruct (H4 e eq_refl) as (line & Hl & _).
    apply lookup_lt_Some in Hl. exact Hl.
  - split; [apply lookup_insert_eq|]. split; [exact H2|].
    split; [apply lookup_insert_eq|]. split; [|discriminate].
    intros _. split; [auto|reflexivity].
Qed.



Lemma plain_lines_pass max sd lines written :
  Forall (fun line => forallb plain_byte line = true) lines ->
  write_lines max sd lines written = (written ++ concat lines, inr tt).
Proof.
  revert written. induction lines as [|line lines IH]; intros written H; simpl.
  - rewrite app_nil_r. reflexivity.
  - apply Forall_cons_1 in H as [Hl Hls].
    assert (~ In ESC line /\ ~ In CR line /\ forallb (in_range 0 127) line = true)
      as (Hesc & Hcr & Hascii).
    { clear -Hl. induction line as [|c t IHt]; simpl in *; [tauto|].
      apply andb_prop in Hl as [Hc Ht]. destruct (IHt Ht) as (H1 & H2 & H3).
      unfold plain_byte in Hc. apply andb_prop in Hc as [Hc Hc3].
      apply andb_prop in Hc as [Hc1 Hc2].
      apply negb_true_iff in Hc2, Hc3. rewrite Hc1, H3.
      repeat split.
      - intros [->|Hin]; [rewrite byte_eqb_refl in Hc2; discriminate|tauto].
      - intros [->|Hin]; [rewrite byte_eqb_refl in Hc3; discriminate|tauto]. }
    rewrite (filter_line_no_esc max sd line Hesc), after_last_no_sep by exact Hcr.
    destruct (decode_spec line) as [_ Hd]. rewrite (Hd Hascii).
    rewrite list_byte_of_string_of_list_byte, (IH _ Hls), <- app_assoc.
    reflexivity.
Qed.

Lemma buffered_lines_plain data :
  forallb plain_byte data = true ->
  Forall (fun line => forallb plain_byte line = true) (buffered_lines data).
Proof.
  intros H. apply List.Forall_forall. intros line Hin.
  unfold buffered_lines in Hin. apply in_map_iff in Hin as (e & <- & He).
  apply filter_In in He as [He _].
  rewrite forallb_app. simpl. rewrite andb_true_r.
  apply forallb_forall. intros c Hc.
  assert (In c (concat (split_on LF data))) as Hcc
      by (apply in_concat; exists e; auto).
  rewrite split_on_concat in Hcc. apply filter_In in Hcc as [Hcd _].
  rewrite forallb_forall in H. auto.
Qed.

(** X5.  Plain text is logged as it was printed.  When the bytes waiting in
    the buffer are ASCII with no escape byte and no carriage return, the
    flush returns, appends to the log file exactly the non-empty lines of
    those bytes, each ended by a newline, uploads the file once, and leaves
    the buffer at position zero. *)
Theorem flush_of_plain_text i w m b :
  monitors w !! i = Some m ->
  buffers w !! _io_buffer m = Some b ->
  BytesIO_tell b <> 0%nat ->
  forallb plain_byte (take (position b) (contents b)) = true ->
  exists w',
    _store_buffered_logs i w = (w', inr tt) /\
    files w' !! file_save_path m =
      Some (default [] (files w !! file_save_path m)
            ++ concat (buffered_lines (take (position b) (contents b)))) /\
    artifact_log w' = artifact_log w ++ [(run_id m, file_save_path m)] /\
    buffers w' !! _io_buffer m = Some (BytesIO_seek 0 b).
Proof.
  intros Hm Hb Hz Hp. unfold _store_buffered_logs.
  rewrite Hm, Hb. apply Nat.eqb_neq in Hz. rewrite Hz.
  unfold BytesIO_read, BytesIO_seek, BytesIO_tell. cbn [contents position].
  rewrite drop_0. fold (buffered_lines (take (position b) (contents b))).
  rewrite (plain_lines_pass _ _ _ [] (buffered_lines_plain _ Hp)).
  eexists. split; [reflexivity|]. simpl.
  split; [apply lookup_insert_eq|]. split; [reflexivity|].
  apply lookup_insert_eq.
Qed.

Lemma flush_of_plain_text_witness :
  let w := run [New "plots" "run" 30; Start 0;
                Write Stdout (PyStr (String "010" "step 1"));
                Write Stderr (PyStr (String "010" EmptyString));
                Write Stdout (PyStr "step 2")]
               (init_world example_config ∅) in
  exists w',
    _store_buffered_logs 0 w = (w', inr tt) /\
    files w' !! "plots/terminal_log.txt"%string =
      Some (bytes "Termial Log Path: plots/terminal_log.txt" ++ [LF]
            ++ bytes "step 1" ++ [LF] ++ bytes "step 2" ++ [LF]).
Proof.
  intros w.
  edestruct (flush_of_plain_text 0 w) as (w' & H1 & H2 & _).
  - vm_compute. reflexivity.
  - vm_compute. reflexivity.
  - vm_compute. discriminate.
  - vm_compute. reflexivity.
  - exists w'. split; [exact H1|]. etransitivity; [exact H2|].
    vm_compute. reflexivity.
Defined.

(** X6.  Right after a flush, whether it returned or raised, the buffer is
    at position zero, so a second flush changes nothing: what a failed flush
    took out of the buffer is not tried again. *)
Theorem flush_twice i w :
  _store_buffered_logs i (fst (_store_buffered_logs i w))
  = (fst (_store_buffered_logs i w), inr tt).
Proof.
  destruct (monitors w !! i) as [m|] eqn:Hm.
  2: { unfold _store_buffered_logs at 2 3. rewrite Hm. simpl.
       unfold _store_buffered_logs. rewrite Hm. reflexivity. }
  destruct (buffers w !! _io_buffer m) as [b|] eqn:Hb.
  2: { unfold _store_buffered_logs at 2 3. rewrite Hm, Hb. simpl.
       unfold _store_buffered_logs. rewrite Hm, Hb. reflexivity. }
  destruct (Nat.eq_dec (BytesIO_tell b) 0) as [Hz|Hz].
  - rewrite (store_on_empty i w m b Hm Hb Hz). simpl.
    apply (store_on_empty i w m b Hm Hb Hz).
  - pose proof (store_buffered_logs_core i w) as (_ & _ & Hmon & _).
    apply (store_on_empty i _ m (BytesIO_seek 0 b)).
    + rewrite Hmon. exact Hm.
    + apply store_resets_buffer; assumption.
    + reflexivity.
Qed.

(** ** Steps that only add output *)

Lemma quiet_refl w : quiet w w.
Proof.
  split; [apply same_core_refl|]. split.
  - intros a H. exact H.
  - intros p c H. exists []. rewrite app_nil_r. exact H.
Qed.

Lemma quiet_trans w1 w2 w3 : quiet w1 w2 -> quiet w2 w3 -> quiet w1 w3.
Proof.
  intros (C1 & B1 & F1) (C2 & B2 & F2).
  split; [exact (same_core_trans _ _ _ C1 C2)|]. split.
  - intros a H. auto.
  - intros p c H. destruct (F1 _ _ H) as [m1 H1]. destruct (F2 _ _ H1) as [m2 H2].
    exists (m1 ++ m2). rewrite app_assoc. exact H2.
Qed.

Lemma foldr_alter_is_Some (f : BytesIO -> BytesIO) l (bs : gmap nat BytesIO) a :
  is_Some (bs !! a) ->
  is_Some (foldr (fun x m => alter f x m) bs l !! a).
Proof.
  intros H. induction l as [|x l IH]; simpl; [exact H|].
  destruct (decide (x = a)) as [->|Hne].
  - rewrite lookup_alter_eq. destruct IH as [b ->]. eauto.
  - rewrite lookup_alter_ne by exact Hne. exact IH.
Qed.

Lemma stream_write_quiet s data w : quiet w (fst (stream_write s data w)).
Proof.
  destruct data; [|apply quiet_refl].
  split; [repeat split|]. split.
  - intros a H. exact H.
  - intros p c H. exists []. rewrite app_nil_r. exact H.
Qed.

Lemma fan_out_quiet data w : quiet w (fst (fan_out data w)).
Proof.
  split; [repeat split|]. split.
  - intros a H. simpl. apply foldr_alter_is_Some, H.
  - intros p c H. exists []. rewrite app_nil_r. exact H.
Qed.

Lemma sys_write_quiet s data w : quiet w (fst (sys_write s data w)).
Proof.
  assert (forall s', quiet w (fst (bind (call_old s' data)
                                     (fun _ => fan_out (encode data)) w))) as H.
  { intros s'. unfold bind, call_old.
    destruct (old_write_of s' (patches w)) as [[|]|]; try apply quiet_refl.
    pose proof (stream_write_quiet s' data w) as Hq.
    destruct (stream_write s' data w) as [w1 [e|[]]]; [exact Hq|].
    exact (quiet_trans _ _ _ Hq (fan_out_quiet _ _)). }
  unfold sys_write, call_write.
  destruct (sys_write_of s (patches w)) as [[|]|].
  - apply stream_write_quiet.
  - destruct s; apply H.
  - apply quiet_refl.
Qed.

Lemma LOGGER_info_quiet msg w : quiet w (fst (LOGGER_info msg w)).
Proof.
  unfold LOGGER_info. destruct (LOGGER_stream (config w)) as [s|];
    [|apply quiet_refl].
  pose proof (sys_write_quiet s (PyStr (LOGGER_format (config w) msg)) w) as H.
  destruct (sys_write s _ w) as [w' [[]|[]]]; exact H.
Qed.

Lemma file_append_grows path data w : files_grow w (file_append path data w).
Proof.
  intros p c H. simpl. destruct (decide (path = p)) as [->|Hne].
  - rewrite lookup_insert_eq, H. simpl. eauto.
  - rewrite lookup_insert_ne by exact Hne. exists []. rewrite app_nil_r. exact H.
Qed.

Lemma store_buffered_logs_quiet i w : quiet w (fst (_store_buffered_logs i w)).
Proof.
  split; [apply store_buffered_logs_core|].
  unfold _store_buffered_logs.
  destruct (monitors w !! i) as [m|]; [|apply quiet_refl].
  destruct (buffers w !! _io_buffer m) as [b|] eqn:Hb; [|apply quiet_refl].
  destruct (BytesIO_tell b =? 0)%nat; [apply quiet_refl|].
  destruct (BytesIO_read _ _) as [data b1].
  assert (forall written,
            buffers_kept w (file_append (file_save_path m) written
               (with_buffers (<[_io_buffer m := BytesIO_seek 0 b1]> (buffers w)) w)))
    as Hk.
  { intros written a H. simpl. destruct (decide (_io_buffer m = a)) as [->|Hne].
    - rewrite lookup_insert_eq. eauto.
    - rewrite lookup_insert_ne by exact Hne. exact H. }
  assert (forall written,
            files_grow w (file_append (file_save_path m) written
               (with_buffers (<[_io_buffer m := BytesIO_seek 0 b1]> (buffers w)) w)))
    as Hf.
  { intros written. apply (file_append_grows _ _ (with_buffers _ w)). }
  destruct (write_lines _ _ _ _) as [written [e|[]]]; simpl; split;
    first [apply Hk | apply Hf].
Qed.

(** ** What one call does to the heap and the registry *)

Lemma start_transition i w : transition w (fst (start i w)).
Proof.
  pose proof (quiet_refl w) as (_ & Bk & Fg).
  unfold start. destruct (monitors w !! i) as [m|] eqn:Hm;
    [|split; [exact Bk|]; split; [exact Fg|]; left; auto].
  destruct (_started m) eqn:Hs;
    [split; [exact Bk|]; split; [exact Fg|]; left; auto|].
  unfold bind, update_monitor, modify.
  set (w1 := with_monitors _ w).
  set (w2 := fst (if registry_is_empty w1 then _install_stream_patches w1
                  else (w1, inr tt))).
  replace (if registry_is_empty w1 then _install_stream_patches w1 else (w1, inr tt))
    with (w2, @inr exn unit tt)
    by (subst w2; destruct (registry_is_empty w1); reflexivity).
  set (w3 := with_registry _ w2).
  assert (monitors w3 = alter (set_started true) i (monitors w) /\
          _buffer_registry w3 = <[i := _io_buffer m]> (_buffer_registry w) /\
          buffers w3 = buffers w /\ files w3 = files w) as (M3 & R3 & B3 & F3).
  { subst w3 w2 w1. destruct (registry_is_empty _); repeat split. }
  assert (forall w', quiet w3 w' -> transition w w') as Hfin.
  { intros w' ((_ & R & M & _) & Bk' & Fg'). split; [|split].
    - intros a H. apply Bk'. rewrite B3. exact H.
    - intros p c H. apply Fg'. rewrite F3. exact H.
    - right. left. exists i, m. rewrite M, R. auto. }
  set (msg := ("Termial Log Path: " +:+ file_save_path m)%string).
  pose proof (LOGGER_info_quiet msg w3) as Q4.
  destruct (LOGGER_info msg w3) as [w4 [e|[]]]; simpl in *; [exact (Hfin _ Q4)|].
  destruct (environ (config w4) !! "SLURM_JOB_ID") as [job|]; simpl;
    [|exact (Hfin _ Q4)].
  destruct (String.eqb job EmptyString); simpl; [exact (Hfin _ Q4)|].
  apply Hfin. refine (quiet_trans _ _ _ Q4 _). apply LOGGER_info_quiet.
Qed.

Lemma finish_transition i status w : transition w (fst (finish i status w)).
Proof.
  pose proof (quiet_refl w) as (_ & Bk & Fg).
  unfold finish. destruct (monitors w !! i) as [m|] eqn:Hm;
    [|split; [exact Bk|]; split; [exact Fg|]; left; auto].
  destruct (_started m) eqn:Hs; simpl;
    [|split; [exact Bk|]; split; [exact Fg|]; left; auto].
  unfold bind.
  set (msg := (_ +:+ _)%string).
  pose proof (LOGGER_info_quiet msg w) as Q1.
  destruct (LOGGER_info msg w) as [w1 [e|[]]]; simpl in *.
  { destruct Q1 as ((_ & R & M & _) & B & F).
    split; [exact B|]. split; [exact F|]. left. auto. }
  unfold update_monitor, modify.
  set (w2 := with_monitors _ w1).
  pose proof (store_buffered_logs_quiet i w2) as Q3.
  assert (forall w' (r : gmap nat nat),
            monitors w' = monitors w2 -> buffers_kept w2 w' -> files_grow w2 w' ->
            _buffer_registry w' = r ->
            (r = _buffer_registry w \/ r = delete i (_buffer_registry w)) ->
            transition w w') as Hfin.
  { destruct Q1 as ((_ & R1 & M1 & _) & B1 & F1).
    intros w' r M B F R Hr. split; [|split].
    - intros a H. apply B. apply (B1 a H).
    - intros p c H. destruct (F1 _ _ H) as [m1 H1].
      destruct (F _ _ H1) as [m2 H2]. exists (m1 ++ m2). rewrite app_assoc. exact H2.
    - right. right. left. exists i, m. rewrite M, R. subst w2. simpl. rewrite M1.
      auto. }
  destruct Q1 as ((_ & R1 & _ & _) & _ & _).
  destruct (_store_buffered_logs i w2) as [w3 [e|[]]]; simpl in *.
  { destruct Q3 as ((_ & R3 & M3 & _) & B3 & F3).
    apply (Hfin _ _ M3 B3 F3 eq_refl). left. rewrite R3. exact R1. }
  destruct Q3 as ((_ & R3 & M3 & _) & B3 & F3).
  unfold registry_del.
  destruct (_buffer_registry w3 !! i) as [a|]; simpl.
  2: { apply (Hfin _ _ M3 B3 F3 eq_refl). left. rewrite R3. exact R1. }
  set (w4 := with_registry _ w3).
  assert (forall w5, (w5 = w4 \/ w5 = with_patches (unpatched (patches w4)) w4) ->
            transition w (file_append (file_save_path m) [LF; LF] w5)) as H5.
  { intros w5 H. apply (Hfin _ (delete i (_buffer_registry w))).
    - destruct H as [-> | ->]; exact M3.
    - destruct H as [-> | ->]; exact B3.
    - intros p c Hc. destruct (F3 _ _ Hc) as [m1 H1].
      assert (files w5 = files w3) as E5 by (destruct H as [-> | ->]; reflexivity).
      rewrite <- E5 in H1.
      destruct (file_append_grows (file_save_path m) [LF; LF] w5 _ _ H1) as [m2 H2].
      exists (m1 ++ m2). rewrite app_assoc. exact H2.
    - destruct H as [-> | ->]; simpl; rewrite R3; subst w2; simpl;
        rewrite R1; reflexivity.
    - right. reflexivity. }
  destruct (registry_is_empty w4); simpl; apply H5; auto.
Qed.

Lemma init_transition d r t w : transition w (fst (LogsMonitor_init d r t w)).
Proof.
  unfold LogsMonitor_init. simpl. split; [|split].
  - intros a H. simpl.
    destruct (decide (fresh (dom (buffers w)) = a)) as [->|Hne].
    + rewrite lookup_insert_eq. eauto.
    + rewrite lookup_insert_ne by exact Hne. exact H.
  - intros p c H. exists []. rewrite app_nil_r. exact H.
  - right. right. right.
    exists (fresh (dom (monitors w))),
      {| run_id := r; _log_capture_interval := 1; _log_time_interval := t;
         _io_buffer := fresh (dom (buffers w)); _shutdown := false;
         _started := false; artifact_save_dir := d;
         file_save_path := (d +:+ "/terminal_log.txt")%string |}.
    cbn [_io_buffer _started _shutdown].
    split; [apply not_elem_of_dom, is_fresh|].
    split; [apply not_elem_of_dom, is_fresh|].
    split; [reflexivity|]. split; [reflexivity|].
    split; [simpl; rewrite lookup_insert_eq; eauto|].
    split; reflexivity.
Qed.

Lemma exec_transition c w : transition w (fst (exec c w)).
Proof.
  destruct c as [d r t|i|i status|s data|i]; simpl.
  - exact (init_transition d r t w).
  - apply start_transition.
  - apply finish_transition.
  - destruct (sys_write_quiet s data w) as ((_ & R & M & _) & B & F).
    split; [exact B|]. split; [exact F|]. left. auto.
  - assert (transition w w) as Hw.
    { destruct (quiet_refl w) as (_ & B & F). split; [exact B|].
      split; [exact F|]. left. auto. }
    destruct (monitors w !! i) as [m|]; [|exact Hw].
    destruct (_started m); [|exact Hw]. simpl.
    destruct (store_buffered_logs_quiet i w) as ((_ & R & M & _) & B & F).
    split; [exact B|]. split; [exact F|]. left. auto.
Qed.

(** ** Invariants of a run *)

Lemma advances_refl m : advances m m.
Proof. repeat split; auto. Qed.

Lemma advances_trans m1 m2 m3 : advances m1 m2 -> advances m2 m3 -> advances m1 m3.
Proof.
  unfold advances. intros (?&?&?&?&?&?&?&?) (?&?&?&?&?&?&?&?).
  repeat split; try congruence; auto.
Qed.

Lemma transition_advances w w' j m :
  transition w w' -> monitors w !! j = Some m ->
  exists m', monitors w' !! j = Some m' /\ advances m m'.
Proof.
  intros (_ & _ & [(M & _) | [(i & mi & Hi & _ & M & _) |
                  [(i & mi & Hi & _ & M & _) | (i & mi & Hi & _ & _ & _ & _ & M & _)]]]) Hj;
    rewrite M.
  - exists m. split; [exact Hj|apply advances_refl].
  - destruct (decide (i = j)) as [->|Hne].
    + rewrite lookup_alter_eq, Hj. eexists. split; [reflexivity|].
      repeat split; auto.
    + rewrite lookup_alter_ne by exact Hne. exists m.
      split; [exact Hj|apply advances_refl].
  - destruct (decide (i = j)) as [->|Hne].
    + rewrite lookup_alter_eq, Hj. eexists. split; [reflexivity|].
      repeat split; auto.
    + rewrite lookup_alter_ne by exact Hne. exists m.
      split; [exact Hj|apply advances_refl].
  - destruct (decide (i = j)) as [->|Hne]; [congruence|].
    rewrite lookup_insert_ne by exact Hne. exists m.
    split; [exact Hj|apply advances_refl].
Qed.


Lemma transition_registry w w' j a :
  transition w w' -> _buffer_registry w' !! j = Some a ->
  _buffer_registry w !! j = Some a \/
  (exists m, monitors w !! j = Some m /\ _started m = false /\ _io_buffer m = a).
Proof.
  intros (_ & _ & [(_ & R) | [(i & mi & Hi & Hs & _ & R) |
                  [(i & mi & Hi & _ & _ & [R|R]) | (i & mi & _ & _ & _ & _ & _ & _ & R)]]]) Hj;
    rewrite R in Hj; auto.
  - destruct (decide (i = j)) as [->|Hne].
    + rewrite lookup_insert_eq in Hj. injection Hj as <-. right. eauto.
    + rewrite lookup_insert_ne in Hj by exact Hne. auto.
  - apply lookup_delete_Some in Hj as [_ Hj]. auto.
Qed.




Lemma run_advances cs w j m :
  monitors w !! j = Some m ->
  exists m', monitors (run cs w) !! j = Some m' /\ advances m m'.
Proof.
  revert w m. induction cs as [|c cs IH]; intros w m H; simpl.
  - exists m. split; [exact H|apply advances_refl].
  - destruct (transition_advances _ _ _ _ (exec_transition c w) H) as (m1 & H1 & A1).
    destruct (IH _ _ H1) as (m2 & H2 & A2).
    exists m2. split; [exact H2|exact (advances_trans _ _ _ A1 A2)].
Qed.

(** X7.  Along any run of calls a monitor stays where it is, keeps its run
    id, log path, intervals and buffer, and never has a flag cleared: once
    started it stays started, once shut down it stays shut down. *)
Theorem monitor_flags_never_cleared cs w j m :
  monitors w !! j = Some m ->
  exists m', monitors (run cs w) !! j = Some m' /\ advances m m'.
Proof. apply run_advances. Qed.

Lemma monitor_flags_never_cleared_witness :
  let w := run [New "plots" "run" 30; Start 0; Finish 0 "success"]
               (init_world example_config ∅) in
  exists m', monitors (run [Start 0; Write Stdout (PyStr "late"); Collect 0] w) !! 0%nat
             = Some m' /\ _started m' = true /\ _shutdown m' = true.
Proof.
  intros w.
  edestruct (monitor_flags_never_cleared
               [Start 0; Write Stdout (PyStr "late"); Collect 0] w 0%nat)
    as (m' & Hm' & (_ & _ & _ & _ & _ & _ & Hs & Hd)).
  - vm_compute. reflexivity.
  - exists m'. split; [exact Hm'|]. split; [apply Hs | apply Hd]; reflexivity.
Defined.

Lemma transition_stays_out w w' i m :
  transition w w' ->
  monitors w !! i = Some m -> _started m = true ->
  _buffer_registry w !! i = None ->
  _buffer_registry w' !! i = None.
Proof.
  intros Ht Hm Hs Hr.
  destruct (_buffer_registry w' !! i) as [a|] eqn:E; [|reflexivity].
  destruct (transition_registry _ _ _ _ Ht E) as [H | (m0 & H0 & Hs0 & _)];
    congruence.
Qed.

(** X8.  A monitor is terminal once finished: if it is started and not in
    the registry, no later call (a second [start] included) puts it back, so
    it captures nothing any more. *)
Theorem finished_monitor_stays_out cs w i m :
  monitors w !! i = Some m -> _started m = true ->
  _buffer_registry w !! i = None ->
  _buffer_registry (run cs w) !! i = None.
Proof.
  revert w m. induction cs as [|c cs IH]; intros w m Hm Hs Hr; simpl; [exact Hr|].
  pose proof (exec_transition c w) as Ht.
  destruct (transition_advances _ _ _ _ Ht Hm) as (m' & Hm' & (_&_&_&_&_&_& Hs' & _)).
  apply (IH _ m' Hm' (Hs' Hs)).
  exact (transition_stays_out _ _ _ _ Ht Hm Hs Hr).
Qed.

Lemma finished_monitor_stays_out_witness :
  let w := run [New "plots" "run" 30; New "other" "run2" 30; Start 0;
                Finish 0 "success"] (init_world example_config ∅) in
  _buffer_registry (run [Start 0; Start 1; Write Stdout (PyStr "late")] w) !! 0%nat
  = None.
Proof.
  intros w.
  eapply (finished_monitor_stays_out
            [Start 0; Start 1; Write Stdout (PyStr "late")] w 0%nat).
  - vm_compute. reflexivity.
  - reflexivity.
  - vm_compute. reflexivity.
Defined.

Lemma files_grow_trans w1 w2 w3 : files_grow w1 w2 -> files_grow w2 w3 -> files_grow w1 w3.
Proof.
  intros F1 F2 p c H. destruct (F1 _ _ H) as [m1 H1]. destruct (F2 _ _ H1) as [m2 H2].
  exists (m1 ++ m2). rewrite app_assoc. exact H2.
Qed.

(** X9.  The log files are append-only: whatever calls are made, raising
    ones included, a file that exists keeps existing and its earlier content
    stays at its head. *)
Theorem log_files_only_grow cs w p c :
  files w !! p = Some c ->
  exists more, files (run cs w) !! p = Some (c ++ more).
Proof.
  revert p c. change (files_grow w (run cs w)).
  revert w. induction cs as [|c cs IH]; intros w; simpl.
  - intros p c H. exists []. rewrite app_nil_r. exact H.
  - destruct (exec_transition c w) as (_ & F & _).
    exact (files_grow_trans _ _ _ F (IH _)).
Qed.

Lemma log_files_only_grow_witness :
  let w := run [New "plots" "run" 30; Start 0; Collect 0]
               (init_world example_config ∅) in
  exists more,
    files (run [Write Stdout (PyStr (String "027" "[1;2C")); Collect 0;
                Finish 0 "failed"; Finish 0 "failed"] w)
      !! "plots/terminal_log.txt"%string
    = Some ((bytes "Termial Log Path: plots/terminal_log.txt" ++ [LF]) ++ more).
Proof.
  intros w. apply log_files_only_grow. vm_compute. reflexivity.
Defined.

(** ** Where a write goes *)







(** ** The records of [start] *)







(** ** What [finish] leaves behind *)

Lemma sys_write_files s data w :
  files (fst (sys_write s data w)) = files w /\
  artifact_log (fst (sys_write s data w)) = artifact_log w.
Proof.
  assert (forall s', files (fst (bind (call_old s' data)
                                   (fun _ => fan_out (encode data)) w)) = files w /\
                     artifact_log (fst (bind (call_old s' data)
                                   (fun _ => fan_out (encode data)) w)) = artifact_log w)
    as H.
  { intros s'. unfold bind, call_old.
    destruct (old_write_of s' (patches w)) as [[|]|]; simpl; auto.
    destruct data; simpl; auto. }
  unfold sys_write, call_write.
  destruct (sys_write_of s (patches w)) as [[|]|]; simpl; auto.
  - destruct data; simpl; auto.
  - destruct s; apply H.
Qed.

Lemma LOGGER_info_files msg w :
  files (fst (LOGGER_info msg w)) = files w /\
  artifact_log (fst (LOGGER_info msg w)) = artifact_log w.
Proof.
  unfold LOGGER_info. destruct (LOGGER_stream (config w)) as [s|]; [|auto].
  pose proof (sys_write_files s (PyStr (LOGGER_format (config w) msg)) w) as H.
  destruct (sys_write s _ w) as [w' [[]|[]]]; exact H.
Qed.

Lemma buffered_lines_nil : buffered_lines [] = [].
Proof. reflexivity. Qed.

Lemma bind_eq {A B : Type} (m : M A) (k : A -> M B) w :
  bind m k w =
  match m w with
  | (w', inl e) => (w', inl e)
  | (w', inr a) => k a w'
  end.
Proof. reflexivity. Qed.

(** The end of [finish], from the [del] on. *)
Lemma finish_tail i path w3 w' :
  bind (registry_del i)
    (fun _ => bind (fun w => if registry_is_empty w
                             then _uninstall_stream_patches w else (w, inr tt))
       (fun _ => modify (file_append path [LF; LF]))) w3 = (w', inr tt) ->
  files w' !! path = Some (default [] (files w3 !! path) ++ [LF; LF]) /\
  monitors w' = monitors w3 /\ buffers w' = buffers w3 /\
  _buffer_registry w' !! i = None.
Proof.
  unfold bind, registry_del.
  destruct (_buffer_registry w3 !! i) as [a|]; [|discriminate].
  set (w4 := with_registry _ w3).
  destruct (registry_is_empty w4); intros [= <-]; simpl;
    (split; [apply lookup_insert_eq|]); repeat split; apply lookup_delete_eq.
Qed.

(** X13.  A [finish] that returns has written everything that was left.  It
    logs its record, then flushes with the shutdown flag already up: every
    line waiting in the buffer, the record included, goes to the log file as
    filtered with that flag, followed by two newlines.  The monitor is left
    shut down, out of the registry, with its buffer at position zero. *)
Theorem finish_writes_everything_left i status w w' m b :
  monitors w !! i = Some m -> _started m = true ->
  buffers w !! _io_buffer m = Some b ->
  finish i status w = (w', inr tt) ->
  exists b1 outs,
    buffers (fst (LOGGER_info (stopping_message status) w)) !! _io_buffer m
      = Some b1 /\
    Forall2 (fun line out =>
               filter_line (int_max_str_digits (config w)) true line = inr out /\
               utf8_valid out = true)
            (buffered_lines (take (position b1) (contents b1))) outs /\
    files w' !! file_save_path m =
      Some (default [] (files w !! file_save_path m) ++ concat outs ++ [LF; LF]) /\
    monitors w' !! i = Some (set_shutdown true m) /\
    _buffer_registry w' !! i = None /\
    buffers w' !! _io_buffer m = Some (BytesIO_seek 0 b1).
Proof.
  intros Hm Hs Hb. unfold finish. rewrite Hm, Hs. cbn [negb].
  fold (stopping_message status). rewrite bind_eq.
  pose proof (LOGGER_info_quiet (stopping_message status) w)
    as ((_ & _ & M1 & C1) & B1 & _).
  pose proof (LOGGER_info_files (stopping_message status) w) as [F1 _].
  destruct (B1 _ (ex_intro _ b Hb)) as [b1 Hb1].
  destruct (LOGGER_info (stopping_message status) w) as [w1 [e|[]]];
    cbn [fst] in *; [discriminate|].
  rewrite bind_eq. unfold update_monitor at 1, modify at 1.
  set (w2 := with_monitors _ w1).
  assert (monitors w2 !! i = Some (set_shutdown true m)) as M2.
  { subst w2. simpl. rewrite lookup_alter_eq, M1, Hm. reflexivity. }
  assert (buffers w2 !! _io_buffer (set_shutdown true m) = Some b1) as B2
      by exact Hb1.
  pose proof (store_buffered_logs_core i w2) as (_ & _ & M3 & _).
  pose proof (store_resets_buffer i w2 _ _ M2 B2) as B3.
  rewrite bind_eq.
  destruct (Nat.eq_dec (BytesIO_tell b1) 0) as [Hz|Hz].
  - rewrite (store_on_empty i w2 _ _ M2 B2 Hz) in *.
    intros H. apply finish_tail in H as (F & M & B & R).
    exists b1, []. split; [exact Hb1|].
    unfold BytesIO_tell in Hz. rewrite Hz. split; [constructor|].
    split; [rewrite F; simpl; rewrite F1; reflexivity|].
    split; [rewrite M; exact M2|]. split; [exact R|].
    rewrite B. exact B3.
  - destruct (store_outcome i w2 _ _ M2 B2 Hz) as (outs & H1 & H2 & _ & H4 & _).
    destruct (_store_buffered_logs i w2) as [w3 [e|[]]]; cbn [fst snd] in *;
      [discriminate|].
    intros H. apply finish_tail in H as (F & M & B & R).
    destruct (H4 eq_refl) as [El _].
    rewrite El, firstn_all in H2. change (config w2) with (config w1) in H2.
    rewrite C1 in H2.
    exists b1, outs. split; [exact Hb1|]. split; [exact H2|].
    split.
    { change (file_save_path (set_shutdown true m)) with (file_save_path m) in H1.
      rewrite F, H1. simpl. change (files w2) with (files w1). rewrite F1.
      rewrite <- app_assoc. reflexivity. }
    split; [rewrite M, M3; exact M2|]. split; [exact R|].
    rewrite B. exact B3.
Qed.

Lemma finish_writes_everything_left_witness :
  let w := run [New "plots" "run" 30; Start 0; Collect 0;
                Write Stdout (PyStr (String "027" "[A 99%"))]
               (init_world example_config ∅) in
  exists w' old,
    finish 0 "success" w = (w', inr tt) /\
    files w !! "plots/terminal_log.txt"%string = Some old /\
    files w' !! "plots/terminal_log.txt"%string =
      Some (old ++ bytes " 99%Stopping terminal log monitoring and saving buffered terminal outputs. Final status: SUCCESS."
                ++ [LF; LF; LF]).
Proof.
  intros w.
  destruct (finish 0 "success" w) as [w' r] eqn:E.
  assert (r = inr tt) as -> by (vm_compute in E; congruence).
  edestruct (finish_writes_everything_left 0 "success" w w')
    as (b1 & outs & Hb1 & Houts & Hfile & _).
  - vm_compute. reflexivity.
  - reflexivity.
  - vm_compute. reflexivity.
  - exact E.
  - eexists w', _. split; [reflexivity|]. split; [vm_compute; reflexivity|].
    vm_compute in E. injection E as <-. vm_compute. reflexivity.
Defined.

(** ** Run parameters *)

Lemma str_split_shape sep s :
  exists h r,
    str_split sep s = h :: r /\
    (r = [] -> h = s /\ ~ string_in sep s) /\
    (r <> [] -> exists d,
        s = (d +:+ String sep (List.last r EmptyString))%string /\
        ~ string_in sep (List.last r EmptyString)).
Proof.
  induction s as [|c t IH].
  - exists EmptyString, []. simpl. split; [reflexivity|].
    split; [intros _; split; [reflexivity | intros []] | intros H; congruence].
  - destruct IH as (h & r & Hl & H1 & H2). simpl. rewrite Hl.
    destruct (Ascii.eqb c sep) eqn:E.
    + apply Ascii.eqb_eq in E. subst c.
      exists EmptyString, (h :: r). split; [reflexivity|].
      split; [discriminate|]. intros _.
      destruct r as [|h' r'].
      * destruct (H1 eq_refl) as [-> Hno]. exists EmptyString. simpl. auto.
      * destruct (H2 ltac:(discriminate)) as (d & Ht & Hno).
        exists (String sep d).
        change (List.last (h :: h' :: r') EmptyString)
          with (List.last (h' :: r') EmptyString).
        split; [etransitivity; [apply f_equal, Ht | reflexivity] | exact Hno].
    + apply Ascii.eqb_neq in E.
      exists (String c h), r. split; [reflexivity|]. split.
      * intros Hr. destruct (H1 Hr) as [-> Hno]. split; [reflexivity|].
        simpl. intros [->|H]; [congruence | auto].
      * intros Hr. destruct (H2 Hr) as (d & Ht & Hno).
        exists (String c d). split; [etransitivity; [apply f_equal, Ht | reflexivity] | exact Hno].
Qed.

Lemma last_str_split sep s :
  exists dir,
    s = (dir +:+ List.last (str_split sep s) EmptyString)%string /\
    ~ string_in sep (List.last (str_split sep s) EmptyString) /\
    (dir = EmptyString \/ exists d, dir = (d +:+ String sep EmptyString)%string).
Proof.
  destruct (str_split_shape sep s) as (h & r & -> & H1 & H2).
  destruct r as [|h' r'].
  - destruct (H1 eq_refl) as [-> Hno]. exists EmptyString. simpl. auto.
  - destruct (H2 ltac:(discriminate)) as (d & Hs & Hno).
    change (List.last (h :: h' :: r') EmptyString)
      with (List.last (h' :: r') EmptyString).
    exists (d +:+ String sep EmptyString)%string. split; [|split; [exact Hno|eauto]].
    etransitivity; [exact Hs|]. clear.
    generalize (List.last (h' :: r') EmptyString). intros x.
    induction d as [|c d IH]; [reflexivity|].
    change (String c (d +:+ String sep x) = String c ((d +:+ String sep EmptyString) +:+ x))%string.
    f_equal. exact IH.
Qed.

Lemma string_app_nil_r (s : string) : (s +:+ EmptyString)%string = s.
Proof.
  induction s as [|c s IH]; [reflexivity|].
  change (String c (s +:+ EmptyString)%string = String c s). now f_equal.
Qed.

Lemma base_tags_lookup argv0 args config :
  base_tags argv0 args config !! "projectName"%string = Some (project_name config) /\
  base_tags argv0 args config !! "command"%string
  = Some (List.last (str_split "/" argv0) EmptyString
          +:+ match args with
              | [] => EmptyString
              | _ :: _ => " " +:+ String.concat " " args
              end)%string /\
  forall k, k <> "projectName"%string -> k <> "command"%string ->
            base_tags argv0 args config !! k = None.
Proof.
  unfold base_tags. destruct args as [|a l].
  - cbn [length Nat.ltb Nat.leb].
    rewrite lookup_insert_ne by discriminate.
    rewrite lookup_insert_eq, lookup_singleton_eq.
    split; [reflexivity|]. split.
    + now rewrite string_app_nil_r.
    + intros k H1 H2. rewrite lookup_insert_ne by congruence.
      apply lookup_singleton_ne. congruence.
  - cbn [length Nat.ltb Nat.leb].
    rewrite lookup_insert_ne by discriminate.
    rewrite lookup_insert_ne by discriminate.
    rewrite !lookup_insert_eq, lookup_singleton_eq.
    split; [reflexivity|]. split; [reflexivity|].
    intros k H1 H2. rewrite !lookup_insert_ne by congruence.
    apply lookup_singleton_ne. congruence.
Qed.


(** X14.  The name of a resumed run is never taken from the tracking server:
    whatever name the server reports for the run, the function makes the same
    calls and returns the same result, and the name it returns is the
    configured one, or the freshly drawn identifier when none is configured. *)
Theorem fetched_run_name_is_discarded argv0 args uuid4 server config tracking_uri f :
  get_mlflow_run_params argv0 args uuid4 (renamed f server) config tracking_uri
  = get_mlflow_run_params argv0 args uuid4 server config tracking_uri /\
  match snd (get_mlflow_run_params argv0 args uuid4 server config tracking_uri) with
  | inr (_, name, _) =>
      name = match run_name config with
             | Some configured =>
                 if String.eqb configured EmptyString then uuid4 else configured
             | None => uuid4
             end
  | inl _ => True
  end.
Proof.
  assert (final_run_name uuid4 config
          = match run_name config with
            | Some configured =>
                if String.eqb configured EmptyString then uuid4 else configured
            | None => uuid4
            end) as Hname.
  { unfold final_run_name, truthy. destruct (run_name config) as [s|]; [|reflexivity].
    destruct (String.eqb s EmptyString); reflexivity. }
  split.
  - unfold get_mlflow_run_params, renamed. cbn [authenticate get_run_name update_run].
    destruct (truthy (training_run_id config) || truthy (training_fork_run_id config));
      [|reflexivity].
    destruct (authentication config && negb (offline config));
      [destruct (authenticate server tracking_uri) as [?|[]]; [reflexivity|]|];
      destruct (truthy (training_run_id config) && on_resume_create_child config);
      try (destruct (get_run_name server _); reflexivity);
      destruct (truthy (training_run_id config) && negb (on_resume_create_child config));
      try reflexivity;
      destruct (get_run_name server _); reflexivity.
  - rewrite <- Hname.
    run_params_cases server config tracking_uri; exact I || reflexivity.
Qed.

Lemma truthy_default (o : option string) :
  truthy o = true -> Some (default EmptyString o) = o.
Proof. destruct o; [reflexivity | discriminate]. Qed.

(** X15.  The tags of a run.  Every run carries the project name and the
    command line: the script name, which is what follows the last slash of
    [sys.argv[0]], then the arguments separated by single spaces.  A run given
    a run id is tagged as resumed, and carries its parent's id exactly when a
    child run is asked for; the fork tags appear only when no run id is given,
    so a fork id given together with a run id is ignored.  No other tag is
    set. *)
Theorem run_params_tags argv0 args uuid4 server config tracking_uri rid name tags :
  snd (get_mlflow_run_params argv0 args uuid4 server config tracking_uri)
  = inr (rid, name, tags) ->
  let resume := truthy (training_run_id config) in
  let fork := truthy (training_fork_run_id config) in
  tags !! "projectName"%string = Some (project_name config) /\
  (exists dir script,
      argv0 = (dir +:+ script)%string /\
      ~ string_in "/" script /\
      (dir = EmptyString \/ exists d, dir = (d +:+ "/")%string) /\
      tags !! "command"%string
      = Some (script +:+ match args with
                         | [] => EmptyString
                         | _ :: _ => " " +:+ String.concat " " args
                         end)%string) /\
  tags !! "resumedRun"%string = (if resume then Some "True"%string else None) /\
  tags !! "mlflow.parentRunId"%string
  = (if resume && on_resume_create_child config then training_run_id config else None) /\
  tags !! "forkedRun"%string
  = (if negb resume && fork then Some "True"%string else None) /\
  tags !! "forkedRunId"%string
  = (if negb resume && fork then training_fork_run_id config else None) /\
  forall k, is_Some (tags !! k) -> In k tag_keys.
Proof.
  intros H resume fork. subst resume fork.
  destruct (base_tags_lookup argv0 args config) as (Hp & Hc & Hk).
  destruct (last_str_split "/" argv0) as (dir & Hdir & Hno & Hend).
  pose proof (truthy_default (training_run_id config)) as Hrid.
  pose proof (truthy_default (training_fork_run_id config)) as Hfid.
  assert (forall k, is_Some (base_tags argv0 args config !! k) -> In k tag_keys) as Hdom.
  { intros k [v Hv]. destruct (decide (k = "projectName"%string)) as [->|H1];
      [simpl; auto|].
    destruct (decide (k = "command"%string)) as [->|H2]; [simpl; auto|].
    rewrite (Hk k H1 H2) in Hv. discriminate. }
  revert H. run_params_cases server config tracking_uri;
    intros [= <- <- <-];
    (split; [rewrite ?lookup_insert_ne by discriminate; exact Hp|]);
    (split; [exists dir, (List.last (str_split "/" argv0) EmptyString);
             split; [exact Hdir|]; split; [exact Hno|]; split; [exact Hend|];
             rewrite ?lookup_insert_ne by discriminate; exact Hc|]);
    rewrite ?lookup_insert_eq, ?lookup_insert_ne by discriminate;
    rewrite ?lookup_insert_eq, ?lookup_insert_ne by discriminate;
    rewrite ?Hk by discriminate;
    rewrite ?Hrid, ?Hfid by reflexivity;
    (repeat (split; [reflexivity|]));
    intros k [v Hv];
    repeat (destruct (decide (k = "resumedRun"%string)) as [->|?];
              [simpl; tauto|rewrite lookup_insert_ne in Hv by congruence]);
    repeat (destruct (decide (k = "mlflow.parentRunId"%string)) as [->|?];
              [simpl; tauto|rewrite lookup_insert_ne in Hv by congruence]);
    repeat (destruct (decide (k = "forkedRunId"%string)) as [->|?];
              [simpl; tauto|rewrite lookup_insert_ne in Hv by congruence]);
    repeat (destruct (decide (k = "forkedRun"%string)) as [->|?];
              [simpl; tauto|rewrite lookup_insert_ne in Hv by congruence]);
    apply Hdom; eauto.
Qed.

Lemma run_params_tags_witness :
  let tags :=
    snd (match snd (get_mlflow_run_params "/opt/bin/anemoi-training" ["train"; "--cfg"]
                      "fresh-id" answering_server example_run_config "https://mlflow")
         with
         | inr r => r
         | inl _ => (None, EmptyString, ∅)
         end) in
  tags !! "command"%string = Some "anemoi-training train --cfg"%string /\
  tags !! "resumedRun"%string = Some "True"%string /\
  tags !! "forkedRunId"%string = None.
Proof.
  pose proof (run_params_tags "/opt/bin/anemoi-training" ["train"; "--cfg"]
                "fresh-id" answering_server example_run_config "https://mlflow"
                (Some "abc"%string) "fresh-id"
                (<[ "resumedRun"%string := "True"%string ]>
                   (base_tags "/opt/bin/anemoi-training" ["train"; "--cfg"]
                      example_run_config))
                eq_refl) as H.
  vm_compute. repeat split.
Defined.



(** X17.  The run id handed back.  The function returns the configured run id
    exactly when the run is resumed in place, and that is exactly when it has
    set the run to RUNNING on the server; a child run, a fork and a fresh run
    get no run id, so that the server assigns a new one. *)
Theorem run_id_reused_only_in_place argv0 args uuid4 server config tracking_uri
    rid name tags :
  snd (get_mlflow_run_params argv0 args uuid4 server config tracking_uri)
  = inr (rid, name, tags) ->
  rid = (if truthy (training_run_id config) && negb (on_resume_create_child config)
         then training_run_id config else None) /\
  forall x,
    rid = Some x <->
    In (UpdateRun x "RUNNING")
       (fst (get_mlflow_run_params argv0 args uuid4 server config tracking_uri)).
Proof.
  pose proof (truthy_default (training_run_id config)) as Hrid.
  run_params_cases server config tracking_uri;
    intros [= <- <- <-]; cbn [In];
    rewrite ?Hrid by reflexivity;
    (split; [reflexivity|]); intros x;
    try specialize (Hrid eq_refl);
    (split; [intros H; try discriminate; rewrite <- Hrid in H; injection H as <-; auto
            |intros H; try (rewrite <- Hrid);
             intuition (try discriminate; try congruence)]).
Qed.

Lemma run_id_reused_only_in_place_witness :
  fst (fst (match snd (get_mlflow_run_params "train.py" [] "fresh-id" answering_server
                         example_run_config "https://mlflow")
            with
            | inr r => r
            | inl _ => (None, EmptyString, ∅)
            end)) = Some "abc"%string.
Proof.
  destruct (run_id_reused_only_in_place "train.py" [] "fresh-id" answering_server
              example_run_config "https://mlflow" (Some "abc"%string) "fresh-id"
              (<[ "resumedRun"%string := "True"%string ]>
                 (base_tags "train.py" [] example_run_config))
              eq_refl) as [H _].
  reflexivity.
Defined.

(** ** Construction of the logger *)

(** X18.  The parent constructor is given a tracking uri or a local directory,
    never both: offline, the uri is dropped and the directory kept; online, the
    directory is dropped and the uri kept.  It is reached exactly when the
    constructor returns, and the token helper is created for the same uri. *)
Theorem logger_init_uri_or_directory rank requests_get auth_authenticate
    tracking_uri0 save_dir0 offline0 authentication0 w w' calls r :
  AnemoiMLflowLogger_init rank requests_get auth_authenticate tracking_uri0 save_dir0
    offline0 authentication0 w = (w', (calls, r)) ->
  (forall u s, In (MLFlowLogger_init u s) calls ->
     (u = None \/ s = None) /\
     u = (if offline0 then None else tracking_uri0) /\
     s = (if offline0 then save_dir0 else None)) /\
  (forall u e, In (TokenAuth_new u e) calls ->
     u = (if offline0 then None else tracking_uri0) /\
     e = and_not authentication0 offline0) /\
  (r = inr tt <-> exists u s, In (MLFlowLogger_init u s) calls).
Proof.
  unfold AnemoiMLflowLogger_init.
  destruct (rank =? 0)%nat.
  - destruct offline0.
    + destruct (LOGGER_info _ w) as [w1 [e|[]]]; intros [= <- <- <-]; cbn [In];
        (split; [intros u s H|split; [intros u b H|]]);
        try (intuition (try discriminate; try congruence); fail);
        try (split; [intros _; eauto | intros _; reflexivity]).
      split; [discriminate|]. intros (u & s & H). intuition discriminate.
    + destruct (LOGGER_info _ w) as [w1 [e|[]]].
      * intros [= <- <- <-]; cbn [In].
        split; [intros u s H; intuition discriminate|].
        split; [intros u b H; intuition congruence|].
        split; [discriminate|]. intros (u & s & H). intuition discriminate.
      * destruct auth_authenticate as [e|[]].
        -- intros [= <- <- <-]; cbn [In].
           split; [intros u s H; intuition discriminate|].
           split; [intros u b H; intuition congruence|].
           split; [discriminate|]. intros (u & s & H). intuition discriminate.
        -- destruct (health_check _ _ _) as [request [e|[]]];
             intros [= <- <- <-]; cbn [In].
           ++ split; [intros u s H; intuition discriminate|].
              split; [intros u b H; intuition congruence|].
              split; [discriminate|]. intros (u & s & H). intuition discriminate.
           ++ split; [intros u s H; intuition (try discriminate; try congruence)|].
              split; [intros u b H; intuition congruence|].
              split; [intros _; eauto 8 | reflexivity].
  - intros [= <- <- <-]; cbn [In].
    split; [intros u s H; destruct offline0; intuition (try discriminate; try congruence)|].
    split; [intros u b H; intuition discriminate|].
    split; [intros _; eauto | reflexivity].
Qed.

Lemma logger_init_uri_or_directory_witness :
  snd (snd (AnemoiMLflowLogger_init 0 (always_answers "OK") (inr tt)
              (Some "https://mlflow"%string) (Some "./mlruns"%string) true None
              (init_world example_config ∅))) = inr tt /\
  ~ In (MLFlowLogger_init (Some "https://mlflow"%string) (Some "./mlruns"%string))
       (fst (snd (AnemoiMLflowLogger_init 0 (always_answers "OK") (inr tt)
                    (Some "https://mlflow"%string) (Some "./mlruns"%string) true None
                    (init_world example_config ∅)))).
Proof.
  destruct (logger_init_uri_or_directory 0 (always_answers "OK") (inr tt)
              (Some "https://mlflow"%string) (Some "./mlruns"%string) true None
              (init_world example_config ∅) _ _ _ eq_refl) as (H1 & _ & H3).
  split.
  - apply H3. exists None, (Some "./mlruns"%string). vm_compute. auto.
  - intros H. destruct (H1 _ _ H) as (_ & Hu & _). discriminate Hu.
Defined.

(** X19.  The server is checked before the logger is built.  The health
    request is made only by the process of rank zero, only online, and only
    after the token call returned; it asks for the health page of the tracking
    uri.  Once the request is made, the parent constructor is reached exactly
    when the server answered OK; any other answer, or an exception of the
    request, ends the construction.  A process of another rank goes straight
    to the parent constructor and writes no log record. *)
Theorem logger_init_health_gate rank requests_get auth_authenticate
    tracking_uri0 save_dir0 offline0 authentication0 w w' calls r :
  AnemoiMLflowLogger_init rank requests_get auth_authenticate tracking_uri0 save_dir0
    offline0 authentication0 w = (w', (calls, r)) ->
  (In TokenAuth_authenticate calls -> rank = 0%nat /\ offline0 = false) /\
  (forall request, In (Health request) calls ->
     rank = 0%nat /\ offline0 = false /\ auth_authenticate = inr tt /\
     url request = (format_optional tracking_uri0 +:+ "/health")%string /\
     ((exists u s, In (MLFlowLogger_init u s) calls) <->
      exists response, requests_get request = inr response /\
                       text response = "OK"%string)) /\
  (rank <> 0%nat -> w' = w /\ calls = [MLFlowLogger_init
                                          (if offline0 then None else tracking_uri0)
                                          (if offline0 then save_dir0 else None)]).
Proof.
  unfold AnemoiMLflowLogger_init.
  destruct (rank =? 0)%nat eqn:Hrank.
  - apply Nat.eqb_eq in Hrank. subst rank.
    destruct offline0.
    + destruct (LOGGER_info _ w) as [w1 [e|[]]]; intros [= <- <- <-]; cbn [In];
        (split; [intros H; exfalso; intuition discriminate|]);
        (split; [intros request H; exfalso; intuition discriminate|]);
        intros H; congruence.
    + destruct (LOGGER_info _ w) as [w1 [e|[]]].
      * intros [= <- <- <-]; cbn [In].
        split; [intros H; exfalso; intuition discriminate|].
        split; [intros request H; exfalso; intuition discriminate|].
        intros H; congruence.
      * destruct auth_authenticate as [e|[]].
        -- intros [= <- <- <-]; cbn [In].
           split; [auto|].
           split; [intros request H; exfalso; intuition discriminate|].
           intros H; congruence.
        -- unfold health_check. cbv beta iota zeta.
           destruct (requests_get _) as [e|response] eqn:Hget;
             [|destruct (String.eqb (text response) "OK") eqn:Hok];
             cbv beta iota zeta;
             intros [= <- <- <-]; cbn [In];
             (split; [auto|]);
             (split; [|intros H; congruence]);
             intros request [H|[H|[H|H]]]; try discriminate;
             try (exfalso; exact H);
             try (destruct H as [H|[]]; discriminate);
             injection H as <-;
             (split; [reflexivity|]); (split; [reflexivity|]);
             (split; [reflexivity|]); (split; [reflexivity|]).
           ++ split; [intros (u & s & H); exfalso; intuition discriminate|].
              intros (response & H & _). cbn [url] in *. congruence.
           ++ split.
              ** intros _. exists response. split; [exact Hget|].
                 now apply String.eqb_eq.
              ** intros _. exists tracking_uri0, None.
                 right; right; right; left; reflexivity.
           ++ split; [intros (u & s & H); exfalso; intuition discriminate|].
              intros (response' & H & Hok').
              rewrite Hget in H. injection H as <-.
              apply String.eqb_neq in Hok. contradiction.
  - apply Nat.eqb_neq in Hrank. intros [= <- <- <-]; cbn [In].
    split; [intros H; exfalso; intuition discriminate|].
    split; [intros request H; exfalso; intuition discriminate|].
    intros _. split; reflexivity.
Qed.

Lemma logger_init_health_gate_witness :
  snd (snd (AnemoiMLflowLogger_init 0 (always_answers "Forbidden") (inr tt)
              (Some "https://mlflow"%string) (Some "./mlruns"%string) false
              (Some true) (init_world example_config ∅)))
  = inl (ConnectionError
           ("Could not connect to MLflow server at https://mlflow. "
            +:+ authentication_hint)) /\
  ~ exists u s,
      In (MLFlowLogger_init u s)
         (fst (snd (AnemoiMLflowLogger_init 0 (always_answers "Forbidden") (inr tt)
                      (Some "https://mlflow"%string) (Some "./mlruns"%string) false
                      (Some true) (init_world example_config ∅)))).
Proof.
  split; [vm_compute; reflexivity|].
  destruct (logger_init_health_gate 0 (always_answers "Forbidden") (inr tt)
              (Some "https://mlflow"%string) (Some "./mlruns"%string) false
              (Some true) (init_world example_config ∅) _ _ _ eq_refl)
    as (_ & H & _).
  edestruct H as (_ & _ & _ & _ & Hgate).
  { vm_compute. right. right. left. reflexivity. }
  intros Hparent. apply Hgate in Hparent. destruct Hparent as (response & Hr & Hok).
  vm_compute in Hr. injection Hr as <-. discriminate.
Defined.

(** ** Cleaning of the parameters *)

Lemma filter_idempotent {A : Type} (f : A -> bool) (l : list A) :
  List.filter f (List.filter f l) = List.filter f l.
Proof.
  induction l as [|x l IH]; simpl; [reflexivity|].
  destruct (f x) eqn:E; simpl; rewrite ?E, IH; reflexivity.
Qed.

(** X20.  [_clean_params] can be applied again without effect, and it is
    exact: an item survives if and only if it was there and its key starts
    with none of the seven prefixes; the matching is on the text of the key,
    so a key that only begins like a section name (such as [database] for
    [data]) is removed with it. *)
Theorem clean_params_exact_and_idempotent {V : Type} (params : list (string * V)) :
  _clean_params (_clean_params params) = _clean_params params /\
  (forall kv, In kv (_clean_params params) <->
              In kv params /\
              forall prefix, In prefix prefixes_to_remove ->
                             String.prefix prefix (fst kv) = false) /\
  (forall k v pre rest, In pre prefixes_to_remove ->
                        k = (pre +:+ rest)%string ->
                        ~ In (k, v) (_clean_params params)).
Proof.
  rewrite !clean_params_filter.
  assert (forall k, to_remove k = false <->
                    forall prefix, In prefix prefixes_to_remove ->
                                   String.prefix prefix k = false) as Hk.
  { intros k. unfold to_remove. split.
    - intros H prefix Hin. destruct (String.prefix prefix k) eqn:E; [|reflexivity].
      assert (existsb (fun prefix => String.prefix prefix k) prefixes_to_remove = true)
        as H' by (apply existsb_exists; eauto).
      congruence.
    - intros H. destruct (existsb _ _) eqn:E; [|reflexivity].
      apply existsb_exists in E as (prefix & Hin & Hp). rewrite (H _ Hin) in Hp.
      discriminate. }
  split; [apply filter_idempotent|]. split.
  - intros kv. rewrite filter_In, negb_true_iff, Hk. reflexivity.
  - intros k v pre rest Hin -> H. apply filter_In in H as [_ H].
    apply negb_true_iff in H. cbn [fst] in H.
    rewrite Hk in H. specialize (H pre Hin).
    assert (String.prefix pre (pre +:+ rest) = true) as Hp.
    { clear. induction pre as [|c pre IH]; simpl; [destruct rest; reflexivity|].
      destruct (ascii_dec c c) as [_|Hne]; [exact IH | congruence]. }
    congruence.
Qed.

Lemma clean_params_exact_and_idempotent_witness :
  _clean_params [("database.url"%string, 1%nat); ("seed"%string, 2%nat)]
  = [("seed"%string, 2%nat)].
Proof.
  destruct (clean_params_exact_and_idempotent
              [("database.url"%string, 1%nat); ("seed"%string, 2%nat)])
    as (_ & _ & H).
  vm_compute. reflexivity.
Defined.

(** ** The collector when nothing is printed *)

(** X21.  A collector with nothing to collect leaves no trace.  While its
    monitor is not shut down, its buffer is at position zero and the rest of
    the program is idle, the thread keeps looping for as many rounds as one
    cares to follow: it neither exits nor dies, its clock advances by one
    [_log_time_interval] a round, and the world stays exactly as it was, so
    no log file is created and nothing is uploaded. *)
Theorem idle_collector_leaves_no_trace i w m b fuel clock counter :
  monitors w !! i = Some m ->
  _shutdown m = false ->
  (0 <= _log_time_interval m)%Q ->
  buffers w !! _io_buffer m = Some b ->
  BytesIO_tell b = 0%nat ->
  exists clock' counter',
    _log_collector fuel idle i clock counter w = (w, Running clock' counter') /\
    (clock' == clock + inject_Z (Z.of_nat fuel) * _log_time_interval m)%Q.
Proof.
  intros Hm Hs Hd Hb Hz. revert clock counter.
  induction fuel as [|n IH]; intros clock counter.
  - exists clock, counter. split; [reflexivity|].
    change (inject_Z (Z.of_nat 0)) with 0%Q. ring.
  - rewrite log_collector_S, Hm, Hs.
    assert (Qle_bool 0 (_log_time_interval m) = true) as -> by now apply Qle_bool_iff.
    cbv zeta. unfold idle at 1 2.
    assert (forall c' k',
               (c' == clock + _log_time_interval m)%Q ->
               (k' == c' + inject_Z (Z.of_nat n) * _log_time_interval m)%Q ->
               (k' == clock + inject_Z (Z.of_nat (S n)) * _log_time_interval m)%Q)
      as Hstep.
    { intros c' k' H1 H2. rewrite H2, H1, Nat2Z.inj_succ. unfold Z.succ.
      rewrite inject_Z_plus. change (inject_Z 1) with 1%Q. ring. }
    destruct (negb (Qle_bool _ _)).
    + rewrite (store_on_empty i w m b Hm Hb Hz).
      destruct (IH (clock + _log_time_interval m)%Q 0%Q) as (c' & k' & E & Hc).
      exists c', k'. split; [exact E|]. apply (Hstep _ _ (Qeq_refl _) Hc).
    + destruct (IH (clock + _log_time_interval m)%Q
                  (counter + _log_time_interval m)%Q) as (c' & k' & E & Hc).
      exists c', k'. split; [exact E|]. apply (Hstep _ _ (Qeq_refl _) Hc).
Qed.

Lemma idle_collector_leaves_no_trace_witness :
  let w := run [New "plots" "run" 30; Start 0; Collect 0]
               (init_world example_config ∅) in
  exists clock' counter',
    _log_collector 3 idle 0 0 0 w = (w, Running clock' counter') /\
    (clock' == 90)%Q.
Proof.
  intros w.
  destruct (idle_collector_leaves_no_trace 0 w
              {| run_id := "run"; _log_capture_interval := 1;
                 _log_time_interval := 30; _io_buffer := 0; _shutdown := false;
                 _started := true; artifact_save_dir := "plots";
                 file_save_path := "plots/terminal_log.txt" |}
              {| contents := bytes "Termial Log Path: plots/terminal_log.txt" ++ [LF];
                 position := 0 |}
              3 0%Q 0%Q)
    as (c' & k' & E & Hc); try (vm_compute; reflexivity).
  - vm_compute. discriminate.
  - exists c', k'. split; [exact E|]. rewrite Hc. vm_compute. reflexivity.
Defined.
